(** * Feature aggregation of writing-process event logs (src/code/data.py)

    A shallow embedding of [process_activity], [process_text_change] and
    [prepare_data], with the pandas operations they call, and the
    properties of the aggregation proved over it.

    Numbers: a Python/pandas float is modelled as an exact real number or
    [NaN]; rounding of binary64 arithmetic is not modelled, and tests on
    reals ([math.log]'s domain check) are decided in proofs, by
    [math_log_pos] and [math_log_nonpos].  The model has no infinities:
    a sum, a mean or a squared deviation that overflows binary64 (values
    near 1e308, or deviations above 1e154) is [inf] in the code and a real
    number here, so [Num] only says "not NaN", and what is stated about
    finite outputs is stated for values bounded far below that range.
    Strings are byte strings and [lower] acts on ASCII letters.

    Tables: an event has a string [id], an [action_time] that is a float
    or missing (NaN), and an [activity] and a [text_change] that are
    strings or missing.  A label table has a column [id] of strings. *)

From Stdlib Require Import Reals Lra Ascii.
From stdpp Require Import base list gmap strings sorting.

(** ** Exceptions and fallible computations *)

Inductive exn : Set :=
| KeyError
| TypeError
| ValueError
| IndexError
| MergeError.

Inductive result (A : Type) : Type :=
| Ok (a : A)
| Err (e : exn).
Arguments Ok {A} a.
Arguments Err {A} e.

#[global] Instance result_ret : MRet result := λ A a, Ok a.
#[global] Instance result_bind : MBind result := λ A B k c,
  match c with
  | Ok a => k a
  | Err e => Err e
  end.

(** [[f(x) for x in l]]: stops at the first element on which [f] raises. *)
Fixpoint mapM {A B} (f : A → result B) (l : list A) : result (list B) :=
  match l with
  | [] => Ok []
  | x :: l' => y ← f x; ys ← mapM f l'; Ok (y :: ys)
  end.

Definition raises {A} (c : result A) : Prop := ∃ e, c = Err e.

(** ** Floats *)

Inductive pyfloat : Type :=
| NaN
| Num (r : R).


(** [x + y] *)
Definition fadd (x y : pyfloat) : pyfloat :=
  match x, y with
  | Num a, Num b => Num (a + b)
  | _, _ => NaN
  end.

(** [math.log(x)]: NaN for NaN, "math domain error" for [x <= 0]. *)
Definition math_log (x : pyfloat) : result pyfloat :=
  match x with
  | NaN => Ok NaN
  | Num r => if Rlt_dec 0 r then Ok (Num (ln r)) else Err ValueError
  end.

(** Sum of a list of reals, left to right. *)
Definition Rsum (l : list R) : R := foldl Rplus 0%R l.

(** Sum of a list of floats; a NaN entry makes the sum NaN. *)
Definition fsum (l : list pyfloat) : pyfloat := foldl fadd (Num 0) l.

(** ** Strings *)

(** [sub in s] *)
Fixpoint contains (sub s : string) : bool :=
  Strings.String.prefix sub s ||
  match s with
  | EmptyString => false
  | String _ s' => contains sub s'
  end.

Definition lower_ascii (c : ascii) : ascii :=
  let n := nat_of_ascii c in
  if (65 <=? n) && (n <=? 90) then ascii_of_nat (n + 32) else c.

(** [s.lower()] *)
Fixpoint lower (s : string) : string :=
  match s with
  | EmptyString => EmptyString
  | String c s' => String (lower_ascii c) (lower s')
  end.

(** ** pandas *)

Module pd.

(** A table cell: a string or a float; a missing value is [CNum NaN]. *)
Inductive cell : Type :=
| CStr (s : string)
| CNum (x : pyfloat).

Record DataFrame : Type := mkDataFrame {
  columns : list string;
  rows : list (list cell)
}.

(** The valid (non-missing) values of a numeric Series ([skipna=True]). *)
Definition dropna (s : list pyfloat) : list R :=
  omap (λ x, match x with Num r => Some r | NaN => None end) s.

(** [Series.max()] *)
Definition max (s : list pyfloat) : pyfloat :=
  match dropna s with
  | [] => NaN
  | x :: l => Num (foldl Rmax x l)
  end.

(** [Series.mean()] *)
Definition mean (s : list pyfloat) : pyfloat :=
  match dropna s with
  | [] => NaN
  | x :: l => Num (Rsum (x :: l) / INR (length (x :: l)))
  end.

(** [Series.std()], with the default [ddof=1]: NaN unless there are at
    least two valid values. *)
Definition std (s : list pyfloat) : pyfloat :=
  let l := dropna s in
  let count := length l in
  if decide (count ≤ 1) then NaN
  else
    let avg := (Rsum l / INR count)%R in
    let sqr := (λ x, ((avg - x) * (avg - x))%R) <$> l in
    Num (sqrt (Rsum sqr / INR (count - 1))).

(** Number of occurrences of [k] in [xs]. *)
Definition count (k : string) (xs : list string) : nat :=
  length (filter (k =.) xs).

(** [Series.value_counts()]: the distinct values with their counts, most
    frequent first.  The order among equal counts is pandas' business;
    nothing below depends on it. *)
Definition by_count_desc (a b : string * nat) : Prop := b.2 ≤ a.2.

#[global] Instance by_count_desc_dec : RelDecision by_count_desc.
Proof. intros a b. unfold by_count_desc. apply _. Defined.

Definition value_counts (xs : list string) : list (string * nat) :=
  merge_sort by_count_desc ((λ k, (k, count k xs)) <$> remove_dups xs).

(** [Series.value_counts(normalize=True)]: counts divided by their sum. *)
Definition value_counts_normalize (xs : list string)
  : list (string * pyfloat) :=
  let counts := value_counts xs in
  let total := sum_list (counts.*2) in
  (λ kc, (kc.1, Num (INR kc.2 / INR total))) <$> counts.

(** [Series.nunique()] of a key column. *)
Definition nunique {A} (key : A → string) (df : list A) : nat :=
  length (remove_dups (key <$> df)).

(** [df.groupby(key)]: the distinct keys in ascending order, each with
    the rows that carry it, in their original order. *)
Definition groupby {A} (key : A → string) (df : list A)
  : list (string * list A) :=
  (λ k, (k, filter (λ e, key e = k) df)) <$>
    merge_sort String.le (remove_dups (key <$> df)).

(** [pd.DataFrame(data=data, columns=cols)] from a list of rows: short
    rows are padded with missing values up to the longest one, whose
    length must be the number of column names. *)
Definition new (data : list (list cell)) (cols : list string)
  : result DataFrame :=
  match data with
  | [] => Ok (mkDataFrame cols [])
  | _ :: _ =>
      let width := max_list (length <$> data) in
      if decide (width = length cols)
      then Ok (mkDataFrame cols
             ((λ r, r ++ replicate (width - length r) (CNum NaN)) <$> data))
      else Err ValueError
  end.

Definition index_of (c : string) (cols : list string) : result nat :=
  match list_find (c =.) cols with
  | Some (i, _) => Ok i
  | None => Err KeyError
  end.

(** [df[c]]: the cells of column [c], top to bottom. *)
Definition getcol (df : DataFrame) (c : string) : result (list cell) :=
  i ← index_of c (columns df);
  mapM (λ r, match r !! i with
             | Some v => Ok v
             | None => Err IndexError
             end) (rows df).

(** A label table: a DataFrame with a column [id] of strings.
    [label_columns] names its other columns and each row is the id with
    the values of the other columns. *)
Record LabelFrame : Type := mkLabelFrame {
  label_columns : list string;
  label_rows : list (string * list cell)
}.

Definition key_matches (k : option cell) (lab : string * list cell) : bool :=
  match k with
  | Some (CStr s) => bool_decide (s = lab.1)
  | _ => false
  end.

(** The renamed entries that repeat an earlier renamed entry although
    the original entry repeats no earlier original entry:
    [new[new.duplicated() & ~orig.duplicated()]], over the pairs of an
    original and its renamed name. *)
Fixpoint new_duplicates (seen_orig seen_new : list string)
    (names : list (string * string)) : list string :=
  match names with
  | [] => []
  | (orig, new) :: names' =>
      (if decide (new ∈ seen_new ∧ orig ∉ seen_orig) then [new] else []) ++
      new_duplicates (orig :: seen_orig) (new :: seen_new) names'
  end.

(** [renamer(x, suffix)] *)
Definition renamer (to_rename : list string) (suffix x : string) : string :=
  if decide (x ∈ to_rename) then x +:+ suffix else x.

(** Column names of a merge, [left] with and [right] without the key
    column: a name that occurs on both sides gets the suffix [_x] on the
    left and [_y] on the right, and pandas raises MergeError when a
    suffixed name repeats another name of its side or meets a name of the
    other side that kept its name. *)
Definition merge_columns (left right : list string)
  : result (list string) :=
  let to_rename := filter (.∈ right) left in
  if decide (to_rename = []) then Ok (left ++ right)
  else
    let llabels := renamer to_rename "_x" <$> left in
    let rlabels := renamer to_rename "_y" <$> right in
    let dups :=
      new_duplicates [] [] (zip left llabels) ++
      new_duplicates [] [] (zip right rlabels) ++
      filter (λ c, c ∈ right ∧ c ∉ to_rename) llabels ++
      filter (λ c, c ∈ left ∧ c ∉ to_rename) rlabels in
    if decide (dups = []) then Ok (llabels ++ rlabels) else Err MergeError.

(** The rows a left row [l] with key [k] contributes to a left join:
    one per matching label row, or one with missing label values. *)
Definition merge_row (right : LabelFrame) (k : option cell) (l : list cell)
  : list (list cell) :=
  match filter (λ lab, key_matches k lab = true) (label_rows right) with
  | [] => [l ++ replicate (length (label_columns right)) (CNum NaN)]
  | m :: ms => (λ lab, l ++ lab.2) <$> (m :: ms)
  end.

(** [left.merge(right, on=key, how='left')] *)
Definition merge_left (left : DataFrame) (right : LabelFrame) (key : string)
  : result DataFrame :=
  i ← index_of key (columns left);
  cols ← merge_columns (columns left) (label_columns right);
  Ok (mkDataFrame cols (rows left ≫= λ l, merge_row right (l !! i) l)).

End pd.

(** [d[k]] *)
Definition getitem (d : gmap string nat) (k : string) : result nat :=
  match d !! k with
  | Some i => Ok i
  | None => Err KeyError
  end.

(** [res[i] = v] *)
Definition setitem {A} (res : list A) (i : nat) (v : A) : result (list A) :=
  if decide (i < length res) then Ok (<[i:=v]> res) else Err IndexError.

(** ** src/code/data.py *)

Definition ACTIVITY_NAMES : list string :=
  ["nonproduction"; "input"; "remove/cut"; "paste"; "replace"; "move"].

(** [dict(zip(names, range(len(names))))]; the names are distinct. *)
Definition ACTIVITY2IDX : gmap string nat :=
  list_to_map (zip ACTIVITY_NAMES (seq 0 (length ACTIVITY_NAMES))).

Definition TEXT_CHANGE_NAMES : list string := ["alphanum"; "other"].

Definition TEXT_CHANGE2IDX : gmap string nat :=
  list_to_map (zip TEXT_CHANGE_NAMES (seq 0 (length TEXT_CHANGE_NAMES))).

Definition ACTION_TIME_COLS : list string :=
  ["action_time_max_log"; "action_time_mean_log"; "action_time_std_log"].

(** [for name, freq in items: res[idx[name]] = freq] *)
Fixpoint assign_freqs (idx : gmap string nat)
    (items : list (string * pyfloat)) (res : list pyfloat)
  : result (list pyfloat) :=
  match items with
  | [] => Ok res
  | (name, freq) :: items' =>
      i ← getitem idx name;
      res' ← setitem res i freq;
      assign_freqs idx items' res'
  end.

(** [lambda x: 'move' if 'Move' in x else x.lower()] on a string. *)
Definition activity_bucket (x : string) : string :=
  if contains "Move" x then "move" else lower x.

(** The same lambda on a cell: [in] raises TypeError on a missing value. *)
Definition activity_apply (x : option string) : result string :=
  match x with
  | Some s => Ok (activity_bucket s)
  | None => Err TypeError
  end.

Definition process_activity (data : list (option string))
  : result (list pyfloat) :=
  activity ← mapM activity_apply data;
  let activity2freq := pd.value_counts_normalize activity in
  let res := replicate (length ACTIVITY_NAMES) (Num 0) in
  assign_freqs ACTIVITY2IDX activity2freq res.

(** [lambda x: 'alphanum' if x == 'q' else 'other']; a missing value is
    not equal to ['q']. *)
Definition text_change_bucket (x : option string) : string :=
  if decide (x = Some "q") then "alphanum" else "other".

Definition process_text_change (data : list (option string))
  : result (list pyfloat) :=
  let text_change := text_change_bucket <$> data in
  let text_change2freq := pd.value_counts_normalize text_change in
  let res := replicate (length TEXT_CHANGE_NAMES) (Num 0) in
  assign_freqs TEXT_CHANGE2IDX text_change2freq res.

(** An input event: one row of the events table. *)
Record event : Type := mkEvent {
  ev_id : string;
  ev_action_time : pyfloat;
  ev_activity : option string;
  ev_text_change : option string
}.

(** The three [math.log] values of a group's [action_time] column, in the
    order of the list literal. *)
Definition action_time_logs (times : list pyfloat) : result (list pyfloat) :=
  mapM math_log
    [fadd (pd.max times) (Num 1);
     fadd (pd.mean times) (Num 1);
     fadd (pd.std times) (Num 1)].

(** The body of the loop over the groups: the row [tmp]. *)
Definition process_group (log_id : string) (group : list event)
  : result (list pd.cell) :=
  logs ← action_time_logs (ev_action_time <$> group);
  act ← process_activity (ev_activity <$> group);
  tc ← process_text_change (ev_text_change <$> group);
  Ok ([pd.CStr log_id] ++ (pd.CNum <$> logs) ++ (pd.CNum <$> act)
        ++ (pd.CNum <$> tc)).

Definition FEATURE_COLUMNS : list string :=
  ["id"] ++ ACTION_TIME_COLS ++ ACTIVITY_NAMES ++ TEXT_CHANGE_NAMES.

(** The progress bar around the loop, fed with [df['id'].nunique()], has
    no effect on the result and is left out. *)
Definition prepare_data (df : list event) (labels : option pd.LabelFrame)
  : result pd.DataFrame :=
  data ← mapM (λ g, process_group g.1 g.2) (pd.groupby ev_id df);
  res ← pd.new data FEATURE_COLUMNS;
  match labels with
  | Some labels => pd.merge_left res labels "id"
  | None => Ok res
  end.

(** ** Notions used in the statements *)

(** The relative frequency of [k] among [xs]. *)
Definition freq (xs : list string) (k : string) : pyfloat :=
  Num (INR (pd.count k xs) / INR (length xs)).

(** The loop of [process_activity] and [process_text_change] over the
    vocabulary [names], with its index dictionary. *)
Definition histogram (names : list string) (xs : list string)
  : result (list pyfloat) :=
  assign_freqs (list_to_map (zip names (seq 0 (length names))))
    (pd.value_counts_normalize xs)
    (replicate (length names) (Num 0)).

(** A raw activity value is recognized when its bucket is a vocabulary
    name. *)
Definition recognized (x : string) : Prop :=
  activity_bucket x ∈ ACTIVITY_NAMES.

#[global] Instance recognized_dec x : Decision (recognized x).
Proof. unfold recognized. apply _. Defined.

(** A vector of floats whose entries are numbers in [0,1] adding up to 1. *)
Definition frequency_vector (v : list pyfloat) : Prop :=
  Forall (λ x, ∃ r, x = Num r ∧ (0 <= r <= 1)%R) v ∧ fsum v = Num 1.

(** The statistics in the spec's words, over the real values of a group. *)
Module stats.
Definition is_max (m : R) (xs : list R) : Prop :=
  m ∈ xs ∧ ∀ x, x ∈ xs → (x <= m)%R.

Definition mean (xs : list R) : R := (Rsum xs / INR (length xs))%R.

(** Sample variance: squared deviations from the mean over [n - 1]. *)
Definition sample_variance (xs : list R) : R :=
  (Rsum ((λ x, (x - mean xs) ^ 2)%R <$> xs) / (INR (length xs) - 1))%R.

Definition sample_std (xs : list R) : R := sqrt (sample_variance xs).
End stats.

(** The third output, given the valid values. *)
Definition std_log (xs : list R) : pyfloat :=
  if decide (length xs ≤ 1) then NaN
  else Num (ln (stats.sample_std xs + 1)).

(** The rows computed by the loop, one per group. *)
Definition feature_rows (df : list event) : result (list (list pd.cell)) :=
  mapM (λ g, process_group g.1 g.2) (pd.groupby ev_id df).

(** An event as the data model has it: a non-negative duration and a
    recognized activity. *)
Definition wf_event (e : event) : Prop :=
  (∃ r, ev_action_time e = Num r ∧ (0 <= r)%R) ∧
  (∃ s, ev_activity e = Some s ∧ recognized s).

(** The row carries the id [k] in its first cell. *)
Definition row_has_id (k : string) (r : list pd.cell) : Prop :=
  match r with
  | pd.CStr s :: _ => s = k
  | _ => False
  end.

#[global] Instance row_has_id_dec k r : Decision (row_has_id k r).
Proof. destruct r as [|[s|x] r]; simpl; apply _. Defined.

(** The label values recorded for the id [k], in table order. *)
Definition labels_of (labels : pd.LabelFrame) (k : string)
  : list (list pd.cell) :=
  (filter (λ lab, lab.1 = k) (pd.label_rows labels)).*2.

(** A row of missing label values. *)
Definition no_labels (labels : pd.LabelFrame) : list pd.cell :=
  replicate (length (pd.label_columns labels)) (pd.CNum NaN).

(** The rows of the left join that come from the feature row [r] of the
    id [k]: [r] once per label row of [k], in table order, each time
    followed by the values of that label row; [r] once, followed by
    missing values, when no label row is of [k]. *)
Definition joined_rows (labels : pd.LabelFrame) (k : string)
    (r : list pd.cell) : list (list pd.cell) :=
  match labels_of labels k with
  | [] => [r ++ no_labels labels]
  | v :: vs => (λ vals, r ++ vals) <$> (v :: vs)
  end.

(** The label columns clash with the feature columns: suffixing the
    names they share produces a name twice, and the merge raises. *)
Definition columns_clash (labels : option pd.LabelFrame) : Prop :=
  match labels with
  | None => False
  | Some l =>
      pd.merge_columns FEATURE_COLUMNS (pd.label_columns l) = Err MergeError
  end.

(** The values of a column that are present, in order. *)
Definition present (data : list (option string)) : list string :=
  omap (λ x, x) data.

(** The events of the writer [k]: the group of [k]. *)
Definition events_of (df : list event) (k : string) : list event :=
  filter (λ e, ev_id e = k) df.

(** What the loop body needs of a group: a mean of the valid durations
    above -1, if there is a valid duration at all, and activities that are
    all present and recognized. *)
Definition group_accepted (g : list event) : Prop :=
  (pd.dropna (ev_action_time <$> g) = [] ∨
   (0 < stats.mean (pd.dropna (ev_action_time <$> g)) + 1)%R) ∧
  Forall (λ a, ∃ s, a = Some s ∧ recognized s) (ev_activity <$> g).

(** Every label row has one value per label column. *)
Definition labels_rectangular (labels : option pd.LabelFrame) : Prop :=
  match labels with
  | None => True
  | Some l =>
      Forall (λ lab, length lab.2 = length (pd.label_columns l))
        (pd.label_rows l)
  end.

(** Number of columns the labels add to the feature table. *)
Definition label_width (labels : option pd.LabelFrame) : nat :=
  match labels with
  | None => 0
  | Some l => length (pd.label_columns l)
  end.

(** Zero, or a number that is not negative, or NaN. *)
Definition nonneg_or_nan (v : pyfloat) : Prop :=
  match v with
  | NaN => True
  | Num r => (0 <= r)%R
  end.

(** ** Example tables *)

(** A group with a single event. *)
Definition single_event_df : list event :=
  [mkEvent "a" (Num 5) (Some "Input") (Some "q")].

(** Three events of two writers. *)
Definition two_writers_df : list event :=
  [mkEvent "b" (Num 1) (Some "Input") (Some "q");
   mkEvent "a" (Num 3) (Some "Remove/Cut") (Some "q");
   mkEvent "b" (Num 2) (Some "Move To") (Some "x")].

(** A table with one unrecognized activity among recognized ones. *)
Definition unknown_activity_df : list event :=
  [mkEvent "a" (Num 1) (Some "Input") (Some "q");
   mkEvent "b" (Num 2) (Some "Typing") (Some "q");
   mkEvent "b" (Num 2) (Some "Paste") (Some "x")].

(** Events with a missing and with a negative [action_time]. *)
Definition missing_negative_df : list event :=
  [mkEvent "a" NaN (Some "Input") (Some "q");
   mkEvent "a" (Num 1) (Some "Input") (Some "q");
   mkEvent "a" (Num 3) (Some "Input") (Some "q");
   mkEvent "b" (Num (-1)) (Some "Paste") (Some "x");
   mkEvent "b" (Num 3) (Some "Paste") (Some "x")].

(** A label table that names the writer [a] twice. *)
Definition duplicate_labels : pd.LabelFrame :=
  pd.mkLabelFrame ["score"]
    [("a", [pd.CNum (Num 1)]); ("a", [pd.CNum (Num 2)])].

(** A label table with a column named as a feature column. *)
Definition overlapping_labels : pd.LabelFrame :=
  pd.mkLabelFrame ["input"] [("a", [pd.CNum (Num 1)])].

(** A label table with a column named as a feature column and a column
    named as that feature column is after suffixing. *)
Definition clashing_labels : pd.LabelFrame :=
  pd.mkLabelFrame ["input"; "input_x"]
    [("a", [pd.CNum (Num 1); pd.CNum (Num 2)])].

(** * Properties *)

(** ** Fallible computations *)

Lemma raises_Err {A} (e : exn) : raises (@Err A e).
Proof. by exists e. Qed.

Lemma bind_Ok {A B} (c : result A) (k : A → result B) b :
  c ≫= k = Ok b ↔ ∃ a, c = Ok a ∧ k a = Ok b.
Proof.
  destruct c as [a|e]; simpl; split.
  - intros ?. by exists a.
  - by intros (a' & [= ->] & ?).
  - done.
  - by intros (? & ? & ?).
Qed.

Lemma bind_raises_l {A B} (c : result A) (k : A → result B) :
  raises c → raises (c ≫= k).
Proof. intros [e ->]. by exists e. Qed.

Lemma mapM_Ok {A B} (f : A → result B) l ys :
  mapM f l = Ok ys ↔ Forall2 (λ x y, f x = Ok y) l ys.
Proof.
  revert ys. induction l as [|x l IH]; intros ys; simpl.
  - split; [intros [= <-]; constructor | by inversion 1].
  - split.
    + intros (y & Hy & (ys' & Hys & [= <-])%bind_Ok)%bind_Ok.
      constructor; [done | by apply IH].
    + inversion 1 as [|? y ? ys' Hy Hys]; subst.
      rewrite Hy. simpl. apply IH in Hys. by rewrite Hys.
Qed.

Lemma mapM_total {A B} (f : A → result B) l :
  Forall (λ x, ∃ y, f x = Ok y) l → ∃ ys, mapM f l = Ok ys.
Proof.
  induction 1 as [|x l [y Hy] _ [ys Hys]]; simpl; [by eexists|].
  rewrite Hy, Hys. by eexists.
Qed.

Lemma mapM_raises {A B} (f : A → result B) l x :
  x ∈ l → raises (f x) → raises (mapM f l).
Proof.
  intros Hx Hf. induction l as [|y l IH]; simpl.
  { by apply elem_of_nil in Hx. }
  apply elem_of_cons in Hx as [<-|Hx].
  - by apply bind_raises_l.
  - destruct (f y); simpl; [|apply raises_Err].
    destruct (IH Hx) as [e ->]. apply raises_Err.
Qed.

(** ** The index dictionaries *)

Section dict.
Context (names : list string) (Hnodup : NoDup names).

Let idx : gmap string nat :=
  list_to_map (zip names (seq 0 (length names))).

Lemma dict_lookup_Some k i : idx !! k = Some i ↔ names !! i = Some k.
Proof using Hnodup.
  unfold idx. rewrite <-elem_of_list_to_map.
  - rewrite list_elem_of_lookup. split.
    + intros (j & (x & y & [= <- <-] & Hx & Hy)%lookup_zip_with_Some).
      apply lookup_seq in Hy as [-> _]. done.
    + intros Hi. exists i. apply lookup_zip_with_Some.
      exists k, i. split_and!; [done..|].
      apply lookup_seq. split; [done|]. by eapply lookup_lt_Some.
  - rewrite fst_zip; [done|]. by rewrite length_seq.
Qed.

Lemma dict_lookup_None k : idx !! k = None ↔ k ∉ names.
Proof using Hnodup.
  rewrite eq_None_not_Some, list_elem_of_lookup. unfold is_Some.
  by setoid_rewrite dict_lookup_Some.
Qed.

(** A key outside the vocabulary makes the loop raise. *)
Lemma assign_freqs_raises items res k :
  k ∈ items.*1 → k ∉ names → raises (assign_freqs idx items res).
Proof using Hnodup.
  intros Hk Hnot. revert res.
  induction items as [|[name freq] items IH]; intros res; simpl in *.
  { by apply elem_of_nil in Hk. }
  destruct (decide (k = name)) as [->|Hne].
  - apply dict_lookup_None in Hnot. unfold getitem. rewrite Hnot.
    apply raises_Err.
  - apply elem_of_cons in Hk as [?|Hk]; [done|].
    destruct (getitem idx name); simpl; [|apply raises_Err].
    destruct (setitem res _ freq); simpl; [|apply raises_Err].
    by apply IH.
Qed.

(** With distinct keys, all in the vocabulary, the loop stores every
    frequency at the position of its name and leaves the rest alone. *)
Lemma assign_freqs_Ok items res :
  NoDup items.*1 →
  Forall (λ k, k ∈ names) items.*1 →
  length res = length names →
  ∃ res', assign_freqs idx items res = Ok res' ∧
    length res' = length names ∧
    ∀ i k, names !! i = Some k →
      (∀ f, (k, f) ∈ items → res' !! i = Some f) ∧
      (k ∉ items.*1 → res' !! i = res !! i).
Proof using Hnodup.
  revert res. induction items as [|[name freq] items IH]; intros res; simpl.
  { intros _ _ Hlen. exists res. split_and!; [done..|].
    intros i k _. split; [|done]. by intros f ?%elem_of_nil. }
  intros [Hfresh Hnd]%NoDup_cons [Hin Hall]%Forall_cons Hlen.
  apply list_elem_of_lookup in Hin as [j Hj].
  assert (Hidx : idx !! name = Some j) by by apply dict_lookup_Some.
  unfold getitem, setitem. rewrite Hidx. simpl.
  assert (Hjlt : j < length res).
  { rewrite Hlen. by eapply lookup_lt_Some. }
  rewrite decide_True by done. simpl.
  assert (Hlen2 : length (<[j:=freq]> res) = length names).
  { by rewrite length_insert. }
  destruct (IH _ Hnd Hall Hlen2) as (res' & Hres' & Hlen' & Hlook).
  exists res'. split_and!; [done..|].
  intros i k Hi. destruct (Hlook i k Hi) as [Hin' Hout]. split.
  - intros f [[= <- <-]|Hf]%elem_of_cons; [|by apply Hin'].
    rewrite Hout by done.
    assert (i = j) as ->.
    { by apply (NoDup_lookup names i j k). }
    by apply list_lookup_insert_eq.
  - intros Hk. apply not_elem_of_cons in Hk as [Hne Hk].
    rewrite Hout by done. apply list_lookup_insert_ne.
    intros ->. congruence.
Qed.
End dict.

(** ** Counting *)

Lemma count_cons k x xs :
  pd.count k (x :: xs) = (if decide (k = x) then 1 else 0) + pd.count k xs.
Proof.
  unfold pd.count. rewrite filter_cons. by destruct (decide (k = x)).
Qed.

Lemma count_not_elem_of k xs : k ∉ xs → pd.count k xs = 0.
Proof.
  induction xs as [|x xs IH]; [done|].
  intros [Hne Hk]%not_elem_of_cons. rewrite count_cons, decide_False by done.
  by apply IH.
Qed.

Lemma count_le_length k xs : pd.count k xs ≤ length xs.
Proof. apply length_filter. Qed.

Lemma sum_list_with_plus {A} (f g : A → nat) l :
  sum_list_with (λ x, f x + g x) l = sum_list_with f l + sum_list_with g l.
Proof. induction l as [|x l IH]; simpl; lia. Qed.

Lemma sum_list_with_ext {A} (f g : A → nat) l :
  (∀ x, f x = g x) → sum_list_with f l = sum_list_with g l.
Proof. intros Hfg. induction l as [|x l IH]; simpl; [done|]. by rewrite Hfg, IH. Qed.

Lemma sum_list_fmap {A} (f : A → nat) l :
  sum_list (f <$> l) = sum_list_with f l.
Proof. induction l as [|x l IH]; [done|]. simpl. f_equal. exact IH. Qed.

Lemma sum_list_with_indicator (ks : list string) x c :
  NoDup ks →
  sum_list_with (λ k, if decide (k = x) then c else 0) ks
  = if decide (x ∈ ks) then c else 0.
Proof.
  induction 1 as [|k ks Hk _ IH]; simpl; [done|]. rewrite IH.
  destruct (decide (k = x)) as [->|Hne].
  - rewrite decide_False by done. rewrite decide_True by left. lia.
  - destruct (decide (x ∈ ks)).
    + rewrite decide_True by by right. done.
    + rewrite decide_False; [done|]. by intros [->|?]%elem_of_cons.
Qed.

(** Over distinct keys the counts add up to the number of values that are
    among the keys. *)
Lemma sum_count_filter (ks xs : list string) :
  NoDup ks →
  sum_list_with (λ k, pd.count k xs) ks = length (filter (λ x, x ∈ ks) xs).
Proof.
  intros Hnd. induction xs as [|x xs IH].
  { simpl. induction ks; simpl; [done|]. apply IHks. by inversion Hnd. }
  rewrite filter_cons.
  rewrite (sum_list_with_ext _
    (λ k, (if decide (k = x) then 1 else 0) + pd.count k xs))
    by (intros k; apply count_cons).
  rewrite sum_list_with_plus, sum_list_with_indicator, IH by done.
  by destruct (decide (x ∈ ks)).
Qed.

Lemma sum_count_all (ks xs : list string) :
  NoDup ks → Forall (λ x, x ∈ ks) xs →
  sum_list_with (λ k, pd.count k xs) ks = length xs.
Proof.
  intros Hnd Hall. rewrite sum_count_filter by done. f_equal.
  induction Hall as [|x xs Hx _ IH]; [done|].
  by rewrite filter_cons_True, IH.
Qed.

(** ** [value_counts] *)

Lemma value_counts_Permutation xs :
  pd.value_counts xs ≡ₚ (λ k, (k, pd.count k xs)) <$> remove_dups xs.
Proof. apply merge_sort_Permutation. Qed.

Lemma value_counts_total xs : sum_list (pd.value_counts xs).*2 = length xs.
Proof.
  rewrite value_counts_Permutation, <-list_fmap_compose.
  rewrite sum_list_fmap.
  apply sum_count_all; [apply NoDup_remove_dups|].
  apply Forall_forall. intros x. by rewrite elem_of_remove_dups.
Qed.

Lemma value_counts_normalize_Permutation xs :
  pd.value_counts_normalize xs ≡ₚ (λ k, (k, freq xs k)) <$> remove_dups xs.
Proof.
  unfold pd.value_counts_normalize. rewrite value_counts_total.
  rewrite value_counts_Permutation, <-list_fmap_compose. done.
Qed.

Lemma value_counts_normalize_keys xs :
  (pd.value_counts_normalize xs).*1 ≡ₚ remove_dups xs.
Proof.
  rewrite value_counts_normalize_Permutation, <-list_fmap_compose.
  apply reflexive_eq, list_fmap_id.
Qed.

Lemma elem_of_value_counts_normalize xs k f :
  (k, f) ∈ pd.value_counts_normalize xs ↔ k ∈ xs ∧ f = freq xs k.
Proof.
  rewrite value_counts_normalize_Permutation, list_elem_of_fmap.
  split.
  - intros (k' & [= -> ->] & Hk). by rewrite elem_of_remove_dups in Hk.
  - intros [Hk ->]. exists k. by rewrite elem_of_remove_dups.
Qed.

Lemma freq_not_elem_of xs k : k ∉ xs → freq xs k = Num 0.
Proof.
  intros Hk. unfold freq. rewrite count_not_elem_of by done.
  f_equal. simpl. unfold Rdiv. apply Rmult_0_l.
Qed.

(** ** The histogram loop over a vocabulary *)

Section histogram.
Context (names : list string) (Hnodup : NoDup names).

Lemma histogram_Ok xs :
  Forall (λ x, x ∈ names) xs → histogram names xs = Ok (freq xs <$> names).
Proof using Hnodup.
  intros Hall. unfold histogram.
  assert (Hkeys : Forall (λ k, k ∈ names) (pd.value_counts_normalize xs).*1).
  { rewrite value_counts_normalize_keys. apply Forall_forall.
    intros k Hk. rewrite elem_of_remove_dups in Hk.
    by eapply Forall_forall in Hall. }
  assert (Hnd : NoDup (pd.value_counts_normalize xs).*1).
  { rewrite value_counts_normalize_keys. apply NoDup_remove_dups. }
  destruct (assign_freqs_Ok names Hnodup _
              (replicate (length names) (Num 0)) Hnd Hkeys
              (length_replicate _ _))
    as (res & Hres & Hlen & Hlook).
  rewrite Hres. f_equal. apply list_eq. intros i. rewrite list_lookup_fmap.
  destruct (names !! i) as [k|] eqn:Hi; simpl.
  - destruct (Hlook i k Hi) as [Hin Hout].
    destruct (decide (k ∈ xs)) as [Hk|Hk].
    + apply Hin. by apply elem_of_value_counts_normalize.
    + rewrite Hout.
      * rewrite freq_not_elem_of by done. apply lookup_replicate_2.
        by eapply lookup_lt_Some.
      * by rewrite value_counts_normalize_keys, elem_of_remove_dups.
  - apply lookup_ge_None. rewrite Hlen. by apply lookup_ge_None.
Qed.

Lemma histogram_raises xs x :
  x ∈ xs → x ∉ names → raises (histogram names xs).
Proof using Hnodup.
  intros Hx Hnot. apply (assign_freqs_raises names Hnodup _ _ x); [|done].
  by rewrite value_counts_normalize_keys, elem_of_remove_dups.
Qed.
End histogram.

(** ** Sums of reals and of floats *)

Lemma foldl_Rplus a l : foldl Rplus a l = (a + Rsum l)%R.
Proof.
  unfold Rsum. revert a. induction l as [|x l IH]; intros a; simpl.
  - lra.
  - rewrite IH, (IH (0 + x)%R). lra.
Qed.

Lemma Rsum_nil : Rsum [] = 0%R.
Proof. done. Qed.

Lemma Rsum_cons x l : Rsum (x :: l) = (x + Rsum l)%R.
Proof. unfold Rsum at 1. simpl. rewrite foldl_Rplus. lra. Qed.

Lemma fsum_Num l : fsum (Num <$> l) = Num (Rsum l).
Proof.
  unfold fsum, Rsum. generalize 0%R as a.
  induction l as [|x l IH]; intros a; simpl; [done|]. apply IH.
Qed.

Lemma Rsum_INR_div {A} (c : A → nat) (d : R) ks :
  Rsum ((λ k, INR (c k) / d)%R <$> ks) = (INR (sum_list_with c ks) / d)%R.
Proof.
  induction ks as [|k ks IH]; csimpl.
  - rewrite Rsum_nil. unfold Rdiv. by rewrite Rmult_0_l.
  - rewrite Rsum_cons, IH, plus_INR. unfold Rdiv. lra.
Qed.

Lemma Rdiv_le_upper a b c : (0 < b → a <= c * b → a / b <= c)%R.
Proof.
  intros Hb Hle.
  assert (Hinv : (b * / b = 1)%R) by (apply Rinv_r; lra).
  apply Rmult_le_reg_r with b; [done|]. unfold Rdiv.
  replace (a * / b * b)%R with (a * (b * / b))%R by ring.
  rewrite Hinv. lra.
Qed.

Lemma Rdiv_nonneg a b : (0 <= a → 0 < b → 0 <= a / b)%R.
Proof.
  intros Ha Hb.
  assert (0 < / b)%R by by apply Rinv_0_lt_compat.
  unfold Rdiv. by apply Rmult_le_pos; [|left].
Qed.

Lemma ratio_bounds (c n : nat) :
  c ≤ n → 0 < n → (0 <= INR c / INR n <= 1)%R.
Proof.
  intros Hc Hn.
  assert (0 <= INR c)%R by apply pos_INR.
  assert (INR c <= INR n)%R by by apply le_INR.
  assert (0 < INR n)%R by (apply lt_0_INR; lia).
  split; [apply Rdiv_nonneg | apply Rdiv_le_upper]; lra.
Qed.

(** ** The two frequency vectors *)

Lemma ACTIVITY_NAMES_NoDup : NoDup ACTIVITY_NAMES.
Proof. apply (bool_decide_unpack _). by vm_compute. Qed.

Lemma TEXT_CHANGE_NAMES_NoDup : NoDup TEXT_CHANGE_NAMES.
Proof. apply (bool_decide_unpack _). by vm_compute. Qed.

Lemma mapM_activity_apply raw :
  mapM activity_apply (Some <$> raw) = Ok (activity_bucket <$> raw).
Proof. induction raw as [|x raw IH]; csimpl; [done | by rewrite IH]. Qed.

Lemma mapM_activity_apply_inv data activity :
  mapM activity_apply data = Ok activity →
  ∃ raw, data = Some <$> raw ∧ activity = activity_bucket <$> raw.
Proof.
  rewrite mapM_Ok. induction 1 as [|x y data activity Hxy _ IH].
  - by exists [].
  - destruct IH as (raw & -> & ->). destruct x as [s|]; [|done].
    injection Hxy as <-. by exists (s :: raw).
Qed.

Lemma process_activity_recognized raw :
  Forall recognized raw →
  process_activity (Some <$> raw)
  = Ok (freq (activity_bucket <$> raw) <$> ACTIVITY_NAMES).
Proof.
  intros Hrec. unfold process_activity. rewrite mapM_activity_apply. simpl.
  apply (histogram_Ok ACTIVITY_NAMES ACTIVITY_NAMES_NoDup).
  by apply Forall_fmap.
Qed.

Lemma process_activity_unrecognized raw x :
  x ∈ raw → ¬ recognized x → raises (process_activity (Some <$> raw)).
Proof.
  intros Hx Hnot. unfold process_activity. rewrite mapM_activity_apply. simpl.
  apply (histogram_raises ACTIVITY_NAMES ACTIVITY_NAMES_NoDup _
           (activity_bucket x)); [|done].
  by apply list_elem_of_fmap_2.
Qed.

Lemma process_activity_missing data :
  None ∈ data → raises (process_activity data).
Proof.
  intros Hin. unfold process_activity. apply bind_raises_l.
  apply (mapM_raises _ _ None Hin). apply raises_Err.
Qed.

Lemma process_activity_Ok_inv data act :
  process_activity data = Ok act →
  ∃ raw, data = Some <$> raw ∧ Forall recognized raw ∧
         act = freq (activity_bucket <$> raw) <$> ACTIVITY_NAMES.
Proof.
  intros Hok.
  assert (∃ raw, data = Some <$> raw) as [raw ->].
  { unfold process_activity in Hok. apply bind_Ok in Hok as (a & Ha & _).
    apply mapM_activity_apply_inv in Ha as (raw & -> & _). by exists raw. }
  exists raw. split; [done|].
  destruct (decide (Forall recognized raw)) as [Hrec|Hnot].
  - split; [done|]. rewrite process_activity_recognized in Hok by done.
    by injection Hok as <-.
  - apply not_Forall_Exists in Hnot; [|apply _].
    apply Exists_exists in Hnot as (x & Hx & Hnot).
    destruct (process_activity_unrecognized raw x Hx Hnot) as [e He].
    congruence.
Qed.

Lemma text_change_bucket_vocabulary x :
  text_change_bucket x ∈ TEXT_CHANGE_NAMES.
Proof.
  unfold text_change_bucket, TEXT_CHANGE_NAMES.
  destruct (decide (x = Some "q")); set_solver.
Qed.

Lemma process_text_change_Ok data :
  process_text_change data
  = Ok (freq (text_change_bucket <$> data) <$> TEXT_CHANGE_NAMES).
Proof.
  apply (histogram_Ok TEXT_CHANGE_NAMES TEXT_CHANGE_NAMES_NoDup).
  apply Forall_fmap, Forall_forall. intros x _.
  apply text_change_bucket_vocabulary.
Qed.

Lemma freq_frequency_vector (names xs : list string) :
  NoDup names → Forall (λ x, x ∈ names) xs → xs ≠ [] →
  frequency_vector (freq xs <$> names).
Proof.
  intros Hnd Hall Hne.
  assert (Hlen : 0 < length xs) by (destruct xs; [done | simpl; lia]).
  split.
  - apply Forall_fmap, Forall_forall. intros k _. eexists. split; [done|].
    apply ratio_bounds; [apply count_le_length | done].
  - replace (freq xs <$> names) with
      (Num <$> ((λ k, INR (pd.count k xs) / INR (length xs))%R <$> names))
      by by rewrite <-list_fmap_compose.
    rewrite fsum_Num, Rsum_INR_div, sum_count_all by done. f_equal.
    apply Rdiv_diag. apply not_0_INR. lia.
Qed.

(** ** Timing statistics *)

Lemma dropna_Num xs : pd.dropna (Num <$> xs) = xs.
Proof. induction xs as [|x xs IH]; csimpl; [done | by rewrite IH]. Qed.

Lemma math_log_pos r : (0 < r)%R → math_log (Num r) = Ok (Num (ln r)).
Proof. intros Hr. simpl. by destruct (Rlt_dec 0 r). Qed.

Lemma math_log_nonpos r : (r <= 0)%R → math_log (Num r) = Err ValueError.
Proof. intros Hr. simpl. destruct (Rlt_dec 0 r); [lra | done]. Qed.

Lemma foldl_Rmax_ge x l : (x <= foldl Rmax x l)%R.
Proof.
  revert x. induction l as [|y l IH]; intros x; simpl; [lra|].
  etrans; [|apply IH]. apply Rmax_l.
Qed.

Lemma foldl_Rmax_upper x l y : y ∈ x :: l → (y <= foldl Rmax x l)%R.
Proof.
  revert x. induction l as [|z l IH]; intros x; simpl.
  - intros ->%list_elem_of_singleton. lra.
  - intros [->|[->|Hy]%elem_of_cons]%elem_of_cons.
    + etrans; [apply (Rmax_l _ z)|]. apply foldl_Rmax_ge.
    + etrans; [apply (Rmax_r x)|]. apply foldl_Rmax_ge.
    + apply IH. by right.
Qed.

Lemma foldl_Rmax_elem x l : foldl Rmax x l ∈ x :: l.
Proof.
  revert x. induction l as [|z l IH]; intros x; simpl; [by left|].
  specialize (IH (Rmax x z)).
  apply elem_of_cons in IH as [->|IH]; [|by do 2 right].
  unfold Rmax. destruct (Rle_dec x z); [right|]; by left.
Qed.

Lemma foldl_Rmax_is_max x l : stats.is_max (foldl Rmax x l) (x :: l).
Proof. split; [apply foldl_Rmax_elem | apply foldl_Rmax_upper]. Qed.

Lemma is_max_unique m m' xs :
  stats.is_max m xs → stats.is_max m' xs → m = m'.
Proof. intros [Hm Hle] [Hm' Hle']. apply Rle_antisym; auto. Qed.

Lemma Rsum_le_max xs m :
  (∀ x, x ∈ xs → (x <= m)%R) → (Rsum xs <= INR (length xs) * m)%R.
Proof.
  induction xs as [|x xs IH]; intros Hle.
  - rewrite Rsum_nil. simpl. lra.
  - rewrite Rsum_cons. change (length (x :: xs)) with (S (length xs)).
    rewrite S_INR.
    assert (x <= m)%R by (apply Hle; by left).
    assert (Rsum xs <= INR (length xs) * m)%R.
    { apply IH. intros y Hy. apply Hle. by right. }
    lra.
Qed.

Lemma Rsum_nonneg xs : Forall (λ x, (0 <= x)%R) xs → (0 <= Rsum xs)%R.
Proof.
  induction 1 as [|x xs Hx _ IH]; [rewrite Rsum_nil; lra|].
  rewrite Rsum_cons. lra.
Qed.

Lemma INR_length_pos {A} (x : A) l : (0 < INR (length (x :: l)))%R.
Proof. apply lt_0_INR. simpl. lia. Qed.

Lemma mean_le_max xs m :
  xs ≠ [] → stats.is_max m xs → (stats.mean xs <= m)%R.
Proof.
  intros Hne [_ Hle]. destruct xs as [|x l]; [done|].
  pose proof (Rsum_le_max _ _ Hle) as Hsum.
  pose proof (INR_length_pos x l) as Hn.
  unfold stats.mean. apply Rdiv_le_upper; lra.
Qed.

Lemma mean_nonneg xs : Forall (λ x, (0 <= x)%R) xs → (0 <= stats.mean xs)%R.
Proof.
  intros Hpos. destruct xs as [|x l].
  - unfold stats.mean. rewrite Rsum_nil. unfold Rdiv. rewrite Rmult_0_l. lra.
  - pose proof (Rsum_nonneg _ Hpos). pose proof (INR_length_pos x l).
    unfold stats.mean. apply Rdiv_nonneg; lra.
Qed.

(** [Series.std()] computes the spec's sample standard deviation. *)
Lemma std_sample_std xs :
  2 ≤ length xs → pd.std (Num <$> xs) = Num (stats.sample_std xs).
Proof.
  intros Hlen. unfold pd.std. rewrite dropna_Num.
  rewrite decide_False by lia. f_equal.
  unfold stats.sample_std, stats.sample_variance. f_equal. f_equal.
  - f_equal. apply list_fmap_ext. intros _ x _. unfold stats.mean. simpl. ring.
  - rewrite minus_INR by lia. done.
Qed.

Lemma ln_nonneg y : (1 <= y)%R → (0 <= ln y)%R.
Proof.
  intros [Hlt| <-].
  - left. rewrite <-ln_1. apply ln_increasing; lra.
  - rewrite ln_1. lra.
Qed.




Lemma std_few times : length (pd.dropna times) ≤ 1 → pd.std times = NaN.
Proof. intros Hlen. unfold pd.std. by rewrite decide_True. Qed.

Lemma max_Num x l : pd.max (Num <$> x :: l) = Num (foldl Rmax x l).
Proof. unfold pd.max. by rewrite dropna_Num. Qed.

Lemma mean_Num x l : pd.mean (Num <$> x :: l) = Num (stats.mean (x :: l)).
Proof. unfold pd.mean. by rewrite dropna_Num. Qed.

(** The three statistics only see the valid values. *)
Lemma action_time_logs_dropna times :
  action_time_logs times = action_time_logs (Num <$> pd.dropna times).
Proof.
  unfold action_time_logs, pd.max, pd.mean, pd.std.
  by rewrite dropna_Num.
Qed.

Lemma action_time_logs_no_valid times :
  pd.dropna times = [] → action_time_logs times = Ok [NaN; NaN; NaN].
Proof.
  intros Hnil. unfold action_time_logs, pd.max, pd.mean, pd.std.
  by rewrite Hnil.
Qed.

Lemma math_log_std xs :
  math_log (fadd (pd.std (Num <$> xs)) (Num 1)) = Ok (std_log xs).
Proof.
  unfold std_log. destruct (decide (length xs ≤ 1)) as [Hlen|Hlen].
  - rewrite std_few; [done|]. by rewrite dropna_Num.
  - rewrite std_sample_std by lia. simpl fadd. apply math_log_pos.
    pose proof (sqrt_pos (stats.sample_variance xs)).
    unfold stats.sample_std. lra.
Qed.

Lemma action_time_logs_Ok x l m :
  stats.is_max m (x :: l) →
  (0 < stats.mean (x :: l) + 1)%R →
  action_time_logs (Num <$> x :: l)
  = Ok [Num (ln (m + 1)); Num (ln (stats.mean (x :: l) + 1));
        std_log (x :: l)].
Proof.
  intros Hmax Hmean.
  pose proof (mean_le_max (x :: l) m ltac:(done) Hmax) as Hle.
  rewrite (is_max_unique _ _ _ Hmax (foldl_Rmax_is_max x l)) in *.
  unfold action_time_logs.
  rewrite max_Num, mean_Num. cbn [mapM fadd].
  rewrite math_log_std, !math_log_pos by lra. done.
Qed.

Lemma action_time_logs_Err x l :
  (stats.mean (x :: l) + 1 <= 0)%R →
  action_time_logs (Num <$> x :: l) = Err ValueError.
Proof.
  intros Hmean. unfold action_time_logs.
  rewrite max_Num, mean_Num. cbn [mapM fadd].
  destruct (Rlt_dec 0 (foldl Rmax x l + 1)) as [Hpos|Hneg].
  - rewrite (math_log_pos _ Hpos). cbn [mbind result_bind].
    by rewrite math_log_nonpos.
  - by rewrite (math_log_nonpos (foldl Rmax x l + 1)) by lra.
Qed.

(** ** Grouping *)

Section groupby.
Context {A : Type} (key : A → string).

Lemma groupby_keys df :
  (pd.groupby key df).*1 = merge_sort String.le (remove_dups (key <$> df)).
Proof.
  unfold pd.groupby. rewrite <-list_fmap_compose. apply list_fmap_id.
Qed.

Lemma groupby_keys_Permutation df :
  (pd.groupby key df).*1 ≡ₚ remove_dups (key <$> df).
Proof. rewrite groupby_keys. apply merge_sort_Permutation. Qed.

Lemma groupby_keys_NoDup df : NoDup (pd.groupby key df).*1.
Proof. rewrite groupby_keys_Permutation. apply NoDup_remove_dups. Qed.

Lemma elem_of_groupby_keys df k :
  k ∈ (pd.groupby key df).*1 ↔ k ∈ key <$> df.
Proof. by rewrite groupby_keys_Permutation, elem_of_remove_dups. Qed.

Lemma length_groupby df : length (pd.groupby key df) = pd.nunique key df.
Proof.
  unfold pd.nunique. rewrite <-groupby_keys_Permutation.
  by rewrite length_fmap.
Qed.

Lemma elem_of_groupby df k g :
  (k, g) ∈ pd.groupby key df ↔
  k ∈ key <$> df ∧ g = filter (λ e, key e = k) df.
Proof.
  unfold pd.groupby. rewrite list_elem_of_fmap. split.
  - intros (k' & [= -> ->] & Hk). split; [|done].
    by rewrite merge_sort_Permutation, elem_of_remove_dups in Hk.
  - intros [Hk ->]. exists k. split; [done|].
    by rewrite merge_sort_Permutation, elem_of_remove_dups.
Qed.

Lemma groupby_group_subset df k g e :
  (k, g) ∈ pd.groupby key df → e ∈ g → e ∈ df ∧ key e = k.
Proof.
  intros [_ ->]%elem_of_groupby [? ?]%list_elem_of_filter. done.
Qed.

End groupby.

(** ** Rows *)

Lemma length_action_time_logs times logs :
  action_time_logs times = Ok logs → length logs = 3.
Proof.
  unfold action_time_logs. intros Hok%mapM_Ok.
  by apply Forall2_length in Hok.
Qed.

Lemma length_process_activity data act :
  process_activity data = Ok act → length act = 6.
Proof.
  intros (raw & _ & _ & ->)%process_activity_Ok_inv.
  by rewrite length_fmap.
Qed.

Lemma length_process_text_change data tc :
  process_text_change data = Ok tc → length tc = 2.
Proof.
  rewrite process_text_change_Ok. by intros [= <-].
Qed.

Lemma process_group_Ok_inv log_id group row :
  process_group log_id group = Ok row →
  ∃ logs act tc,
    action_time_logs (ev_action_time <$> group) = Ok logs ∧
    process_activity (ev_activity <$> group) = Ok act ∧
    process_text_change (ev_text_change <$> group) = Ok tc ∧
    row = pd.CStr log_id :: (pd.CNum <$> logs ++ act ++ tc).
Proof.
  unfold process_group.
  intros (logs & Hlogs & (act & Hact & (tc & Htc & [= <-])%bind_Ok)%bind_Ok)
    %bind_Ok.
  exists logs, act, tc. split_and!; [done..|].
  by rewrite !fmap_app.
Qed.

Lemma process_group_row log_id group row :
  process_group log_id group = Ok row →
  row !! 0 = Some (pd.CStr log_id) ∧ length row = length FEATURE_COLUMNS.
Proof.
  intros (logs & act & tc & Hlogs & Hact & Htc & ->)%process_group_Ok_inv.
  split; [done|]. cbn [length]. rewrite length_fmap, !length_app.
  apply length_action_time_logs in Hlogs as ->.
  apply length_process_activity in Hact as ->.
  by apply length_process_text_change in Htc as ->.
Qed.

(** ** Building the table *)

Lemma max_list_const n ns : ns ≠ [] → Forall (λ m, m = n) ns → max_list ns = n.
Proof.
  intros Hne Hall. apply max_list_elem_of in Hne.
  by eapply Forall_forall in Hall.
Qed.

Lemma new_rectangular data cols :
  Forall (λ r, length r = length cols) data →
  pd.new data cols = Ok (pd.mkDataFrame cols data).
Proof.
  intros Hall. destruct data as [|r data]; [done|].
  unfold pd.new.
  rewrite (max_list_const (length cols)); [| done | by apply Forall_fmap].
  rewrite decide_True by done. do 2 f_equal.
  rewrite <-(list_fmap_id (r :: data)) at 2.
  apply Forall_fmap_ext. eapply Forall_impl; [done|].
  intros r' ->. rewrite Nat.sub_diag. apply app_nil_r.
Qed.

Lemma prepare_data_feature_rows df data :
  feature_rows df = Ok data →
  prepare_data df None = Ok (pd.mkDataFrame FEATURE_COLUMNS data).
Proof.
  intros Hdata. unfold prepare_data. fold (feature_rows df).
  rewrite Hdata. cbn [mbind result_bind].
  rewrite new_rectangular; [done|].
  apply mapM_Ok in Hdata. apply Forall2_Forall_r with
    (Q := λ r, length r = length FEATURE_COLUMNS) in Hdata; [done|].
  apply Forall_forall. intros [k g] _ row Hrow.
  by apply process_group_row in Hrow as [_ ?].
Qed.

Lemma prepare_data_raises df labels :
  raises (feature_rows df) → raises (prepare_data df labels).
Proof. intros Hr. unfold prepare_data. by apply bind_raises_l. Qed.

Lemma prepare_data_None_inv df res :
  prepare_data df None = Ok res →
  ∃ data, feature_rows df = Ok data ∧
          res = pd.mkDataFrame FEATURE_COLUMNS data.
Proof.
  intros Hok. destruct (feature_rows df) as [data|e] eqn:Hdata.
  - exists data. split; [done|].
    rewrite (prepare_data_feature_rows _ _ Hdata) in Hok. by injection Hok.
  - destruct (prepare_data_raises df None) as [e' He'].
    { rewrite Hdata. apply raises_Err. }
    congruence.
Qed.

Lemma feature_rows_ids df data :
  feature_rows df = Ok data →
  (λ r, r !! 0) <$> data
  = (λ k, Some (pd.CStr k)) <$> (pd.groupby ev_id df).*1.
Proof.
  unfold feature_rows. rewrite mapM_Ok.
  induction 1 as [|[k g] row groups data Hrow _ IH]; csimpl; [done|].
  apply process_group_row in Hrow as [-> _]. by rewrite IH.
Qed.

Lemma getcol_id data ids :
  (λ r, r !! 0) <$> data = (λ k, Some (pd.CStr k)) <$> ids →
  pd.getcol (pd.mkDataFrame FEATURE_COLUMNS data) "id" = Ok (pd.CStr <$> ids).
Proof.
  intros Hids. unfold pd.getcol.
  change (pd.index_of "id" _) with (@Ok nat 0). cbn [mbind result_bind].
  apply mapM_Ok. revert ids Hids.
  induction data as [|r data IH]; intros [|k ids] Hids;
    try discriminate Hids.
  { constructor. }
  injection Hids as Hr Hids. constructor; [by rewrite Hr | by apply IH].
Qed.

(** ** Well-formed input *)

Lemma wf_group_times g :
  Forall wf_event g →
  ∃ xs, ev_action_time <$> g = Num <$> xs ∧ Forall (λ x, (0 <= x)%R) xs.
Proof.
  induction 1 as [|e g [(r & Hr & Hpos) _] _ (xs & IH & Hxs)].
  - by exists [].
  - exists (r :: xs). csimpl. rewrite Hr, IH. by split; [|constructor].
Qed.

Lemma wf_group_activities g :
  Forall wf_event g →
  ∃ raw, ev_activity <$> g = Some <$> raw ∧ Forall recognized raw.
Proof.
  induction 1 as [|e g [_ (s & Hs & Hrec)] _ (raw & IH & Hraw)].
  - by exists [].
  - exists (s :: raw). csimpl. rewrite Hs, IH. by split; [|constructor].
Qed.

Lemma action_time_logs_nonneg xs :
  Forall (λ x, (0 <= x)%R) xs → ∃ logs, action_time_logs (Num <$> xs) = Ok logs.
Proof.
  intros Hpos. destruct xs as [|x l].
  - eexists. by apply action_time_logs_no_valid.
  - eexists. apply (action_time_logs_Ok x l _ (foldl_Rmax_is_max x l)).
    pose proof (mean_nonneg _ Hpos). lra.
Qed.

Lemma process_group_wf log_id g :
  Forall wf_event g → ∃ row, process_group log_id g = Ok row.
Proof.
  intros Hwf.
  destruct (wf_group_times g Hwf) as (xs & Htimes & Hpos).
  destruct (wf_group_activities g Hwf) as (raw & Hact & Hrec).
  destruct (action_time_logs_nonneg xs Hpos) as [logs Hlogs].
  unfold process_group.
  rewrite Htimes, Hact, Hlogs, process_activity_recognized by done.
  rewrite process_text_change_Ok. by eexists.
Qed.

Lemma feature_rows_wf df :
  Forall wf_event df → ∃ data, feature_rows df = Ok data.
Proof.
  intros Hwf. apply mapM_total, Forall_forall. intros [k g] Hg.
  apply process_group_wf, Forall_forall. intros e He.
  apply (groupby_group_subset ev_id df k g e Hg) in He as [He _].
  by eapply Forall_forall in Hwf.
Qed.

(** ** Failure of a group *)

Lemma Some_fmap_or_None {A} (data : list (option A)) :
  None ∈ data ∨ ∃ raw, data = Some <$> raw.
Proof.
  induction data as [|[x|] data IH].
  - right. by exists [].
  - destruct IH as [?|[raw ->]]; [left; by right|].
    right. by exists (x :: raw).
  - left. by left.
Qed.

Lemma process_activity_bad data s :
  Some s ∈ data → ¬ recognized s → raises (process_activity data).
Proof.
  intros Hs Hnot. destruct (Some_fmap_or_None data) as [Hnone|[raw ->]].
  - by apply process_activity_missing.
  - apply (process_activity_unrecognized raw s); [|done].
    apply list_elem_of_fmap in Hs as (s' & [= ->] & Hs). done.
Qed.

Lemma process_group_raises_activity log_id g :
  raises (process_activity (ev_activity <$> g)) →
  raises (process_group log_id g).
Proof.
  intros Hact. unfold process_group.
  destruct (action_time_logs _); [|apply raises_Err].
  cbn [mbind result_bind]. by apply bind_raises_l.
Qed.

Lemma process_group_raises_times log_id g :
  raises (action_time_logs (ev_action_time <$> g)) →
  raises (process_group log_id g).
Proof. intros Hact. unfold process_group. by apply bind_raises_l. Qed.

Lemma feature_rows_raises df k :
  k ∈ ev_id <$> df →
  raises (process_group k (filter (λ e, ev_id e = k) df)) →
  raises (feature_rows df).
Proof.
  intros Hk Hr. unfold feature_rows.
  eapply (mapM_raises _ _ (k, _)); [|exact Hr].
  by apply elem_of_groupby.
Qed.

(** ** The left join *)

Lemma filter_none {A} (P : A → Prop) `{∀ x, Decision (P x)} l :
  (∀ x, x ∈ l → ¬ P x) → filter P l = [].
Proof.
  induction l as [|x l IH]; intros Hall; [done|].
  rewrite filter_cons_False by (apply Hall; by left).
  apply IH. intros y ?. apply Hall. by right.
Qed.

Lemma row_has_id_lookup k r : row_has_id k r ↔ r !! 0 = Some (pd.CStr k).
Proof. destruct r as [|[s|x] r]; simpl; naive_solver. Qed.

Lemma merge_row_id labels k r :
  row_has_id k r →
  pd.merge_row labels (r !! 0) r
  = match labels_of labels k with
    | [] => [r ++ no_labels labels]
    | v :: vs => (λ vals, r ++ vals) <$> (v :: vs)
    end.
Proof.
  intros ->%row_has_id_lookup. unfold pd.merge_row, labels_of.
  rewrite (list_filter_iff _ (λ lab, lab.1 = k)).
  - destruct (filter _ (pd.label_rows labels)) as [|m ms]; [done|].
    csimpl. f_equal. by rewrite <-list_fmap_compose.
  - intros lab. simpl. rewrite bool_decide_eq_true. naive_solver.
Qed.

Lemma length_merge_row labels k r :
  row_has_id k r →
  length (pd.merge_row labels (r !! 0) r)
  = Nat.max 1 (length (labels_of labels k)).
Proof.
  intros Hk. rewrite (merge_row_id _ k) by done.
  destruct (labels_of labels k) as [|v vs]; [done|].
  rewrite length_fmap. simpl. lia.
Qed.

Lemma merge_row_extends labels key r o :
  o ∈ pd.merge_row labels key r → ∃ vals, o = r ++ vals.
Proof.
  unfold pd.merge_row. destruct (filter _ _) as [|m ms].
  - intros ->%list_elem_of_singleton. by eexists.
  - intros (lab & -> & _)%list_elem_of_fmap. by eexists.
Qed.

Lemma merge_row_nonempty labels key r : pd.merge_row labels key r ≠ [].
Proof. unfold pd.merge_row. by destruct (filter _ _). Qed.

Lemma merge_row_has_id labels key k k' r o :
  row_has_id k' r → o ∈ pd.merge_row labels key r →
  row_has_id k o ↔ k' = k.
Proof.
  intros Hr [vals ->]%merge_row_extends.
  destruct r as [|[s|x] r]; simpl in *; naive_solver.
Qed.

Lemma filter_merge_row labels key k k' r :
  row_has_id k' r →
  filter (row_has_id k) (pd.merge_row labels key r)
  = if decide (k' = k) then pd.merge_row labels key r else [].
Proof.
  intros Hr.
  assert (Hall : ∀ o, o ∈ pd.merge_row labels key r →
                      row_has_id k o ↔ k' = k).
  { intros o. by apply merge_row_has_id. }
  induction (pd.merge_row labels key r) as [|o os IH].
  { by destruct (decide (k' = k)). }
  rewrite filter_cons, IH by (intros o' ?; apply Hall; by right).
  pose proof (Hall o ltac:(by left)) as Ho.
  destruct (decide (k' = k)) as [Heq|Hne].
  - rewrite decide_True by by apply Ho. done.
  - rewrite decide_False; [done|]. by rewrite Ho.
Qed.

Lemma merge_row_joined labels k r :
  row_has_id k r → pd.merge_row labels (r !! 0) r = joined_rows labels k r.
Proof. apply merge_row_id. Qed.

Lemma merge_left_features data labels :
  pd.merge_left (pd.mkDataFrame FEATURE_COLUMNS data) labels "id"
  = cols ← pd.merge_columns FEATURE_COLUMNS (pd.label_columns labels);
    Ok (pd.mkDataFrame cols (data ≫= λ r, pd.merge_row labels (r !! 0) r)).
Proof. done. Qed.

(** ** Column names of the merge *)

Lemma merge_columns_Err left right e :
  pd.merge_columns left right = Err e → e = MergeError.
Proof.
  unfold pd.merge_columns. cbv zeta.
  repeat case_decide; by intros [= <-].
Qed.

Lemma length_merge_columns left right cols :
  pd.merge_columns left right = Ok cols →
  length cols = length left + length right.
Proof.
  unfold pd.merge_columns. cbv zeta.
  repeat case_decide; intros [= <-]; by rewrite length_app, ?length_fmap.
Qed.

(** Label columns named unlike every left column are appended as they
    are. *)
Lemma merge_columns_disjoint left right :
  Forall (.∉ left) right → pd.merge_columns left right = Ok (left ++ right).
Proof.
  intros Hdisj. unfold pd.merge_columns. cbv zeta.
  rewrite decide_True; [done|].
  apply filter_none. intros c Hl Hr.
  by apply (proj1 (Forall_forall _ _) Hdisj c Hr).
Qed.

Lemma columns_clash_cases labels :
  ¬ columns_clash (Some labels) →
  ∃ cols, pd.merge_columns FEATURE_COLUMNS (pd.label_columns labels)
          = Ok cols.
Proof.
  unfold columns_clash.
  destruct (pd.merge_columns _ _) as [cols|e] eqn:Hcols; [by exists cols|].
  apply merge_columns_Err in Hcols as ->. by intros [].
Qed.

Section join.
Context (labels : pd.LabelFrame).

Let join (data : list (list pd.cell)) : list (list pd.cell) :=
  data ≫= λ r, pd.merge_row labels (r !! 0) r.

Lemma join_preserves data r :
  r ∈ data → ∃ o vals, o ∈ join data ∧ o = r ++ vals.
Proof.
  intros Hr. destruct (pd.merge_row labels (r !! 0) r) as [|o os] eqn:Hm.
  { by apply merge_row_nonempty in Hm. }
  assert (Ho : o ∈ pd.merge_row labels (r !! 0) r).
  { rewrite Hm. by left. }
  destruct (merge_row_extends _ _ _ _ Ho) as [vals ->].
  exists (r ++ vals), vals. split; [|done].
  apply list_elem_of_bind. by exists r.
Qed.

Lemma join_sound data ids o :
  Forall2 (λ r k, row_has_id k r) data ids →
  o ∈ join data →
  ∃ r k, r ∈ data ∧ row_has_id k r ∧
    ((labels_of labels k = [] ∧ o = r ++ no_labels labels) ∨
     (∃ vals, vals ∈ labels_of labels k ∧ o = r ++ vals)).
Proof.
  intros Hids (r & Ho & Hr)%list_elem_of_bind.
  assert (∃ k, row_has_id k r) as [k Hk].
  { apply list_elem_of_lookup in Hr as [i Hi].
    destruct (Forall2_lookup_l _ _ _ _ _ Hids Hi) as (k & _ & Hk).
    by exists k. }
  exists r, k. split_and!; [done..|].
  rewrite (merge_row_id _ k) in Ho by done.
  destruct (labels_of labels k) as [|v vs].
  - left. by apply list_elem_of_singleton in Ho.
  - right. apply list_elem_of_fmap in Ho as (vals & -> & Hvals).
    by exists vals.
Qed.

(** Rows of the join that carry the id [k]: as many as label rows with
    that id, and one when there is none. *)
Lemma join_count data ids k :
  Forall2 (λ r k, row_has_id k r) data ids → NoDup ids →
  length (filter (row_has_id k) (join data))
  = if decide (k ∈ ids) then Nat.max 1 (length (labels_of labels k)) else 0.
Proof.
  intros Hids Hnd.
  rewrite <-(sum_list_with_indicator ids k) by done.
  clear Hnd. unfold join.
  induction Hids as [|r k' data ids Hr _ IH]; [done|].
  rewrite bind_cons, filter_app, length_app, IH. simpl. f_equal.
  rewrite (filter_merge_row _ _ k k') by done.
  destruct (decide (k' = k)) as [->|]; [|done].
  by apply length_merge_row.
Qed.

Lemma join_unique data ids :
  Forall2 (λ r k, row_has_id k r) data ids →
  (∀ k, k ∈ ids → length (labels_of labels k) ≤ 1) →
  Forall2 (λ r o, ∃ vals, o = r ++ vals) data (join data).
Proof.
  intros Hids Hle. unfold join.
  induction Hids as [|r k data ids Hr _ IH]; [constructor|].
  rewrite bind_cons.
  assert (Hlen : length (pd.merge_row labels (r !! 0) r) = 1).
  { rewrite (length_merge_row _ k) by done.
    pose proof (Hle k ltac:(by left)). lia. }
  destruct (pd.merge_row labels (r !! 0) r) as [|o [|??]] eqn:Hm;
    simplify_eq/=.
  constructor.
  - apply (merge_row_extends labels (r !! 0)). rewrite Hm. by left.
  - apply IH. intros k' ?. apply Hle. by right.
Qed.
End join.

Lemma row_has_id_inj k k' r : row_has_id k r → row_has_id k' r → k = k'.
Proof. destruct r as [|[s|x] r]; simpl; [done | congruence | done]. Qed.

(** Rows of the feature table that carry the id [k]. *)
Lemma features_count data ids k :
  Forall2 (λ r k, row_has_id k r) data ids → NoDup ids →
  length (filter (row_has_id k) data) = if decide (k ∈ ids) then 1 else 0.
Proof.
  intros Hids Hnd. rewrite <-(sum_list_with_indicator ids k) by done.
  clear Hnd. induction Hids as [|r k' data ids Hr _ IH]; [done|].
  rewrite filter_cons. simpl. rewrite <-IH.
  destruct (decide (k' = k)) as [->|Hne].
  - by rewrite decide_True.
  - rewrite decide_False; [done|]. intros Hk. apply Hne.
    by eapply row_has_id_inj.
Qed.

Section join_rows.
Context (labels : pd.LabelFrame).

(** The join is the feature rows, in order, each replaced by its joined
    rows. *)
Lemma join_joined_rows data ids :
  Forall2 (λ r k, row_has_id k r) data ids →
  data ≫= (λ r, pd.merge_row labels (r !! 0) r)
  = mjoin (zip_with (λ r k, joined_rows labels k r) data ids).
Proof.
  induction 1 as [|r k data ids Hr _ IH]; [done|].
  rewrite bind_cons, (merge_row_joined _ k), IH by done. done.
Qed.

(** The rows of an id: one feature row, and its joined rows in the
    join. *)
Lemma join_filter data ids k :
  Forall2 (λ r k, row_has_id k r) data ids → NoDup ids → k ∈ ids →
  ∃ r, filter (row_has_id k) data = [r] ∧
       filter (row_has_id k) (data ≫= λ r, pd.merge_row labels (r !! 0) r)
       = joined_rows labels k r.
Proof.
  intros Hids.
  induction Hids as [|r k' data ids Hr Hids IH]; intros Hnd Hk.
  { by apply elem_of_nil in Hk. }
  apply NoDup_cons in Hnd as [Hk' Hnd].
  rewrite bind_cons, filter_app, (filter_merge_row _ _ k k') by done.
  destruct (decide (k' = k)) as [->|Hne].
  - exists r. split.
    + rewrite filter_cons_True by done. f_equal.
      apply nil_length_inv. rewrite (features_count _ _ k Hids Hnd).
      by rewrite decide_False.
    + rewrite (merge_row_joined _ k) by done.
      rewrite (nil_length_inv (filter _ (data ≫= _))); [by rewrite app_nil_r|].
      rewrite (join_count labels _ _ k Hids Hnd). by rewrite decide_False.
  - apply elem_of_cons in Hk as [->|Hk]; [done|].
    destruct (IH Hnd Hk) as (r' & Hf & Hj). exists r'. split; [|done].
    rewrite filter_cons_False; [done|]. intros Hkr. apply Hne.
    by eapply row_has_id_inj.
Qed.
End join_rows.

(** ** Worked examples *)

(** Equality of results that differ only in how their reals are written. *)
Ltac real_eq :=
  first [ reflexivity
        | lra
        | apply (f_equal ln); real_eq
        | apply (f_equal sqrt); real_eq
        | apply (f_equal2 Rplus); real_eq
        | field; lra ].

Ltac float_eq :=
  repeat match goal with
    | |- Ok _ = Ok _ => apply (f_equal Ok)
    | |- pd.mkDataFrame _ _ = pd.mkDataFrame _ _ =>
        apply (f_equal2 pd.mkDataFrame)
    | |- _ :: _ = _ :: _ => apply (f_equal2 cons)
    | |- pd.CNum _ = pd.CNum _ => apply (f_equal pd.CNum)
    | |- Num _ = Num _ => apply (f_equal Num); real_eq
    | |- _ => reflexivity
    end.

Lemma example_activity :
  process_activity [Some "Input"; Some "Remove/Cut"; Some "Move To"]
  = Ok [Num 0; Num (1/3); Num (1/3); Num 0; Num 0; Num (1/3)].
Proof. vm_compute. float_eq. Qed.

Lemma example_text_change :
  process_text_change [Some "q"; Some "q"; Some "x"]
  = Ok [Num (2/3); Num (1/3)].
Proof. vm_compute. float_eq. Qed.

Lemma count_text_change_alphanum data :
  pd.count "alphanum" (text_change_bucket <$> data)
  = length (filter (λ x, x = Some "q") data).
Proof.
  induction data as [|x data IH]; [done|]. csimpl.
  rewrite count_cons, filter_cons, IH. unfold text_change_bucket.
  by destruct (decide (x = Some "q")).
Qed.

Lemma count_text_change_other data :
  pd.count "other" (text_change_bucket <$> data)
  = length (filter (λ x, x ≠ Some "q") data).
Proof.
  induction data as [|x data IH]; [done|]. csimpl.
  rewrite count_cons, filter_cons, IH. unfold text_change_bucket.
  destruct (decide (x = Some "q")) as [->|Hne].
  - by rewrite (decide_False (P := Some "q" ≠ Some "q")) by naive_solver.
  - by rewrite (decide_True (P := x ≠ Some "q")) by done.
Qed.

Lemma action_time_logs_values x l m mu v :
  stats.is_max m (x :: l) →
  stats.mean (x :: l) = mu → (0 < mu + 1)%R →
  2 ≤ length (x :: l) → stats.sample_variance (x :: l) = v →
  action_time_logs (Num <$> x :: l)
  = Ok [Num (ln (m + 1)); Num (ln (mu + 1)); Num (ln (sqrt v + 1))].
Proof.
  intros Hmax <- Hpos Hlen <-. rewrite (action_time_logs_Ok x l m) by done.
  unfold std_log. by rewrite decide_False by lia.
Qed.

Lemma action_time_logs_single x :
  (0 < x + 1)%R →
  action_time_logs [Num x] = Ok [Num (ln (x + 1)); Num (ln (x + 1)); NaN].
Proof.
  intros Hx.
  assert (Hmean : stats.mean [x] = x).
  { unfold stats.mean, Rsum. simpl. field. }
  change [Num x] with (Num <$> [x]).
  rewrite (action_time_logs_Ok x [] x).
  - by rewrite Hmean.
  - split; [by left|]. intros y ->%list_elem_of_singleton. lra.
  - rewrite Hmean. done.
Qed.

Lemma process_group_eval log_id group logs act tc :
  action_time_logs (ev_action_time <$> group) = Ok logs →
  process_activity (ev_activity <$> group) = Ok act →
  process_text_change (ev_text_change <$> group) = Ok tc →
  process_group log_id group
  = Ok (pd.CStr log_id :: (pd.CNum <$> logs ++ act ++ tc)).
Proof.
  intros Hlogs Hact Htc. unfold process_group.
  rewrite Hlogs, Hact, Htc. cbn [mbind result_bind].
  by rewrite !fmap_app.
Qed.

Lemma prepare_data_eval df groups data :
  pd.groupby ev_id df = groups →
  mapM (λ g, process_group g.1 g.2) groups = Ok data →
  prepare_data df None = Ok (pd.mkDataFrame FEATURE_COLUMNS data).
Proof. intros <- Hdata. by apply prepare_data_feature_rows. Qed.

Lemma example_times :
  action_time_logs [Num 1; Num 3]
  = Ok [Num (ln 4); Num (ln 3); Num (ln (sqrt 2 + 1))].
Proof.
  change [Num 1; Num 3] with (Num <$> [1; 3]%R).
  rewrite (action_time_logs_values 1 [3%R] 3 2 2).
  - float_eq.
  - split; [set_solver|].
    intros x [->|Hx]%elem_of_cons; [lra|].
    apply list_elem_of_singleton in Hx as ->. lra.
  - unfold stats.mean, Rsum. simpl. lra.
  - lra.
  - simpl. lia.
  - unfold stats.sample_variance, stats.mean, Rsum. simpl. field.
Qed.

Lemma single_event_features :
  prepare_data single_event_df None
  = Ok (pd.mkDataFrame FEATURE_COLUMNS
          [[pd.CStr "a";
            pd.CNum (Num (ln 6)); pd.CNum (Num (ln 6)); pd.CNum NaN;
            pd.CNum (Num 0); pd.CNum (Num 1); pd.CNum (Num 0);
            pd.CNum (Num 0); pd.CNum (Num 0); pd.CNum (Num 0);
            pd.CNum (Num 1); pd.CNum (Num 0)]]).
Proof.
  apply (prepare_data_eval _ [("a", single_event_df)]).
  { vm_compute. reflexivity. }
  cbn [mapM fst snd].
  rewrite (process_group_eval "a" single_event_df
             [Num (ln 6); Num (ln 6); NaN]
             [Num 0; Num 1; Num 0; Num 0; Num 0; Num 0]
             [Num 1; Num 0]).
  - reflexivity.
  - change (ev_action_time <$> single_event_df) with [Num 5].
    rewrite action_time_logs_single by lra. float_eq.
  - vm_compute. float_eq.
  - vm_compute. float_eq.
Qed.

Lemma prepare_data_labels df labels :
  prepare_data df (Some labels)
  = res ← prepare_data df None; pd.merge_left res labels "id".
Proof.
  unfold prepare_data. destruct (mapM _ _) as [data|e]; [|done].
  cbn [mbind result_bind]. by destruct (pd.new data FEATURE_COLUMNS).
Qed.

Lemma prepare_data_Some df labels data :
  feature_rows df = Ok data →
  prepare_data df (Some labels)
  = cols ← pd.merge_columns FEATURE_COLUMNS (pd.label_columns labels);
    Ok (pd.mkDataFrame cols (data ≫= λ r, pd.merge_row labels (r !! 0) r)).
Proof.
  intros Hdata.
  rewrite prepare_data_labels, (prepare_data_feature_rows _ _ Hdata).
  apply merge_left_features.
Qed.

(** A label column [input] is renamed, with the feature column. *)
Lemma overlapping_labels_columns :
  pd.merge_columns FEATURE_COLUMNS (pd.label_columns overlapping_labels)
  = Ok ["id";
        "action_time_max_log"; "action_time_mean_log"; "action_time_std_log";
        "nonproduction"; "input_x"; "remove/cut"; "paste"; "replace"; "move";
        "alphanum"; "other"; "input_y"].
Proof. reflexivity. Qed.

(** The renamed feature column [input_x] meets the label column
    [input_x]. *)
Lemma clashing_labels_clash : columns_clash (Some clashing_labels).
Proof. reflexivity. Qed.

Lemma duplicate_labels_no_clash : ¬ columns_clash (Some duplicate_labels).
Proof. intros Hclash. vm_compute in Hclash. discriminate. Qed.

Lemma labels_of_unique labels k :
  NoDup (pd.label_rows labels).*1 → length (labels_of labels k) ≤ 1.
Proof.
  unfold labels_of. rewrite length_fmap.
  induction (pd.label_rows labels) as [|[k' v] l IH]; csimpl; [lia|].
  intros [Hk' Hnd]%NoDup_cons. rewrite filter_cons. simpl.
  destruct (decide (k' = k)) as [->|]; [|by apply IH].
  rewrite filter_none; [simpl; lia|].
  intros [k'' v'] Hin ?. simplify_eq/=. apply Hk'.
  by apply (list_elem_of_fmap_2 fst) in Hin.
Qed.

Lemma feature_rows_has_id df data :
  feature_rows df = Ok data →
  Forall2 (λ r k, row_has_id k r) data (pd.groupby ev_id df).*1.
Proof.
  unfold feature_rows. rewrite mapM_Ok.
  induction 1 as [|[k g] row groups data Hrow _ IH]; csimpl; constructor.
  - apply row_has_id_lookup. by apply process_group_row in Hrow as [? _].
  - done.
Qed.

Lemma two_writers_wf : Forall wf_event two_writers_df.
Proof.
  repeat constructor; try (eexists; split; [reflexivity | lra]);
    (eexists; split; [reflexivity|]);
    apply (bool_decide_unpack _); vm_compute; reflexivity.
Qed.

(** * The specified properties *)

(** C1. For every well-formed event table, the feature table returned by
    [prepare_data] has exactly one row per distinct [id] of the input: its
    [id] column lists every id of the input once. *)
Theorem prepare_data_one_row_per_id (df : list event) :
  Forall wf_event df →
  ∃ res ids,
    prepare_data df None = Ok res ∧
    pd.getcol res "id" = Ok (pd.CStr <$> ids) ∧
    NoDup ids ∧
    (∀ k, k ∈ ids ↔ k ∈ ev_id <$> df) ∧
    length (pd.rows res) = pd.nunique ev_id df.
Proof.
  intros Hwf. destruct (feature_rows_wf df Hwf) as [data Hdata].
  exists (pd.mkDataFrame FEATURE_COLUMNS data), (pd.groupby ev_id df).*1.
  split_and!.
  - by apply prepare_data_feature_rows.
  - by apply getcol_id, feature_rows_ids.
  - apply groupby_keys_NoDup.
  - apply elem_of_groupby_keys.
  - simpl. rewrite <-length_groupby. symmetry.
    apply mapM_Ok in Hdata. by eapply Forall2_length.
Qed.

(** C1 at [two_writers_df]. *)
Lemma prepare_data_one_row_per_id_witness :
  ∃ res ids,
    prepare_data two_writers_df None = Ok res ∧
    pd.getcol res "id" = Ok (pd.CStr <$> ids) ∧
    NoDup ids ∧
    (∀ k, k ∈ ids ↔ k ∈ ev_id <$> two_writers_df) ∧
    length (pd.rows res) = pd.nunique ev_id two_writers_df.
Proof. exact (prepare_data_one_row_per_id two_writers_df two_writers_wf). Defined.

(** C2. For a non-empty group, the six activity frequencies and the two
    text-change frequencies each lie in [0,1] and add up to 1. *)
Theorem frequency_vectors_normalized (group : list event) act tc :
  group ≠ [] →
  process_activity (ev_activity <$> group) = Ok act →
  process_text_change (ev_text_change <$> group) = Ok tc →
  (length act = 6 ∧ frequency_vector act) ∧
  (length tc = 2 ∧ frequency_vector tc).
Proof.
  intros Hne Hact Htc. split; split.
  - by eapply length_process_activity.
  - apply process_activity_Ok_inv in Hact as (raw & Hraw & Hrec & ->).
    apply freq_frequency_vector.
    + apply ACTIVITY_NAMES_NoDup.
    + by apply Forall_fmap.
    + intros Hnil%fmap_nil_inv. subst raw. by apply fmap_nil_inv in Hraw.
  - by eapply length_process_text_change.
  - rewrite process_text_change_Ok in Htc. injection Htc as <-.
    apply (freq_frequency_vector TEXT_CHANGE_NAMES).
    + apply TEXT_CHANGE_NAMES_NoDup.
    + apply Forall_fmap, Forall_forall. intros x _.
      apply text_change_bucket_vocabulary.
    + by intros Hnil%fmap_nil_inv%fmap_nil_inv.
Qed.

(** C2 at a group of three events. *)
Lemma frequency_vectors_normalized_witness :
  frequency_vector [Num 0; Num (1/3); Num (1/3); Num 0; Num 0; Num (1/3)] ∧
  frequency_vector [Num (2/3); Num (1/3)].
Proof.
  pose proof (frequency_vectors_normalized
    [mkEvent "a" (Num 1) (Some "Input") (Some "q");
     mkEvent "a" (Num 3) (Some "Remove/Cut") (Some "q");
     mkEvent "a" (Num 2) (Some "Move To") (Some "x")]
    _ _ ltac:(discriminate) example_activity example_text_change) as H.
  exact (conj (proj2 (proj1 H)) (proj2 (proj2 H))).
Defined.

(** C3 does not hold as specified: for the group of the single value 5
    the third timing output is NaN, which is log(s+1) for no number s,
    whatever the standard deviation of one value is taken to be. *)
Lemma single_value_std_log_undefined :
  action_time_logs (Num <$> [5]%R) = Ok [Num (ln 6); Num (ln 6); NaN] ∧
  ¬ (∃ s, action_time_logs (Num <$> [5]%R)
          = Ok [Num (ln (5 + 1)); Num (ln (stats.mean [5]%R + 1));
                Num (ln (s + 1))]) ∧
  ¬ (∃ a b s, action_time_logs (Num <$> [5]%R)
              = Ok [a; b; Num (ln (s + 1))]).
Proof.
  assert (Hlogs : action_time_logs (Num <$> [5]%R)
                  = Ok [Num (ln 6); Num (ln 6); NaN]).
  { change (Num <$> [5]%R) with [Num 5].
    rewrite action_time_logs_single by lra. float_eq. }
  rewrite Hlogs. split_and!.
  - done.
  - by intros (s & [=]).
  - by intros (a & b & s & [=]).
Qed.

(** C3, amended. For every non-empty group of non-negative [action_time]
    values the first two timing outputs are log(max+1) and log(mean+1);
    the third is log(std+1), with std the sample standard deviation, when
    the group has at least two values, and NaN when it has one; the
    values 1 and 3 give log 4 for the maximum and log 3 for the mean. *)
Theorem action_time_logs_spec (xs : list R) :
  xs ≠ [] →
  Forall (λ x, (0 <= x)%R) xs →
  (∃ m s,
     stats.is_max m xs ∧
     action_time_logs (Num <$> xs)
     = Ok [Num (ln (m + 1)); Num (ln (stats.mean xs + 1)); s] ∧
     (2 ≤ length xs → s = Num (ln (stats.sample_std xs + 1))) ∧
     (length xs = 1 → s = NaN)) ∧
  action_time_logs [Num 1; Num 3]
  = Ok [Num (ln 4); Num (ln 3); Num (ln (sqrt 2 + 1))].
Proof.
  intros Hne Hpos. split; [|apply example_times].
  destruct xs as [|x l]; [done|].
  exists (foldl Rmax x l), (std_log (x :: l)). split_and!.
  - apply foldl_Rmax_is_max.
  - apply action_time_logs_Ok; [apply foldl_Rmax_is_max|].
    pose proof (mean_nonneg _ Hpos). lra.
  - intros Hlen. unfold std_log. by rewrite decide_False by lia.
  - intros Hlen. unfold std_log. by rewrite decide_True by lia.
Qed.

(** C3, amended, at the values 1 and 3. *)
Lemma action_time_logs_spec_witness :
  ∃ m s,
    stats.is_max m [1; 3]%R ∧
    action_time_logs (Num <$> [1; 3]%R)
    = Ok [Num (ln (m + 1)); Num (ln (stats.mean [1; 3]%R + 1)); s] ∧
    (2 ≤ length [1; 3]%R → s = Num (ln (stats.sample_std [1; 3]%R + 1))) ∧
    (length [1; 3]%R = 1 → s = NaN).
Proof.
  refine (proj1 (action_time_logs_spec [1; 3]%R _ _)).
  - discriminate.
  - repeat constructor; lra.
Defined.




(** C5. [process_activity] sends every raw value that contains ["Move"]
    to the bucket [move] and lower-cases every other value; on recognized
    values it returns the relative frequency of each vocabulary name, in
    the order nonproduction, input, remove/cut, paste, replace, move, with
    0 for a name that does not occur; ['Input', 'Remove/Cut', 'Move To']
    gives [0, 1/3, 1/3, 0, 0, 1/3]. *)
Theorem process_activity_frequencies (raw : list string) :
  Forall recognized raw →
  let buckets := activity_bucket <$> raw in
  (∀ x, x ∈ raw →
     activity_bucket x = if contains "Move" x then "move" else lower x) ∧
  process_activity (Some <$> raw)
  = Ok [freq buckets "nonproduction"; freq buckets "input";
        freq buckets "remove/cut"; freq buckets "paste";
        freq buckets "replace"; freq buckets "move"] ∧
  (∀ name, name ∉ buckets → freq buckets name = Num 0) ∧
  process_activity [Some "Input"; Some "Remove/Cut"; Some "Move To"]
  = Ok [Num 0; Num (1/3); Num (1/3); Num 0; Num 0; Num (1/3)].
Proof.
  intros Hrec buckets. split_and!.
  - done.
  - by rewrite process_activity_recognized.
  - apply freq_not_elem_of.
  - apply example_activity.
Qed.

(** C5 at ['Input', 'Remove/Cut', 'Move To']. *)
Lemma process_activity_frequencies_witness :
  process_activity (Some <$> ["Input"; "Remove/Cut"; "Move To"])
  = Ok [freq ["input"; "remove/cut"; "move"] "nonproduction";
        freq ["input"; "remove/cut"; "move"] "input";
        freq ["input"; "remove/cut"; "move"] "remove/cut";
        freq ["input"; "remove/cut"; "move"] "paste";
        freq ["input"; "remove/cut"; "move"] "replace";
        freq ["input"; "remove/cut"; "move"] "move"].
Proof.
  refine (proj1 (proj2
    (process_activity_frequencies ["Input"; "Remove/Cut"; "Move To"] _))).
  apply (bool_decide_unpack _). vm_compute. reflexivity.
Defined.

(** C6. An activity value whose bucket is not one of the six vocabulary
    names makes [process_activity] raise on its group, and the error
    aborts [prepare_data], with or without labels: no table is
    returned. *)
Theorem unrecognized_activity_aborts
    (df : list event) (labels : option pd.LabelFrame) (e : event) (s : string) :
  e ∈ df →
  ev_activity e = Some s →
  activity_bucket s ∉ ACTIVITY_NAMES →
  raises (process_activity
            (ev_activity <$> filter (λ e', ev_id e' = ev_id e) df)) ∧
  raises (prepare_data df labels).
Proof.
  intros He Hs Hnot.
  assert (Hact : raises (process_activity
            (ev_activity <$> filter (λ e', ev_id e' = ev_id e) df))).
  { apply (process_activity_bad _ s); [|done]. rewrite <-Hs.
    apply list_elem_of_fmap_2. by apply list_elem_of_filter. }
  split; [done|].
  apply prepare_data_raises, (feature_rows_raises _ (ev_id e)).
  - by apply list_elem_of_fmap_2.
  - by apply process_group_raises_activity.
Qed.

(** C6 at [unknown_activity_df], whose activity ['Typing'] is unknown. *)
Lemma unrecognized_activity_aborts_witness :
  raises (process_activity [Some "Typing"; Some "Paste"]) ∧
  raises (prepare_data unknown_activity_df None).
Proof.
  refine (unrecognized_activity_aborts unknown_activity_df None
            (mkEvent "b" (Num 2) (Some "Typing") (Some "q")) "Typing" _ _ _).
  - right. left.
  - reflexivity.
  - apply (bool_decide_unpack _). vm_compute. reflexivity.
Defined.

(** C7 does not hold as specified: the group [a] has a missing
    [action_time] and the group [b] a negative one, and [prepare_data]
    returns a row of timing statistics for each. *)
Lemma missing_negative_accepted :
  prepare_data missing_negative_df None
  = Ok (pd.mkDataFrame FEATURE_COLUMNS
          [[pd.CStr "a";
            pd.CNum (Num (ln 4)); pd.CNum (Num (ln 3));
            pd.CNum (Num (ln (sqrt 2 + 1)));
            pd.CNum (Num 0); pd.CNum (Num 1); pd.CNum (Num 0);
            pd.CNum (Num 0); pd.CNum (Num 0); pd.CNum (Num 0);
            pd.CNum (Num 1); pd.CNum (Num 0)];
           [pd.CStr "b";
            pd.CNum (Num (ln 4)); pd.CNum (Num (ln 2));
            pd.CNum (Num (ln (sqrt 8 + 1)));
            pd.CNum (Num 0); pd.CNum (Num 0); pd.CNum (Num 0);
            pd.CNum (Num 1); pd.CNum (Num 0); pd.CNum (Num 0);
            pd.CNum (Num 0); pd.CNum (Num 1)]]).
Proof.
  apply (prepare_data_eval _
    [("a", [mkEvent "a" NaN (Some "Input") (Some "q");
            mkEvent "a" (Num 1) (Some "Input") (Some "q");
            mkEvent "a" (Num 3) (Some "Input") (Some "q")]);
     ("b", [mkEvent "b" (Num (-1)) (Some "Paste") (Some "x");
            mkEvent "b" (Num 3) (Some "Paste") (Some "x")])]).
  { vm_compute. reflexivity. }
  cbn [mapM fst snd].
  rewrite (process_group_eval "a" _
             [Num (ln 4); Num (ln 3); Num (ln (sqrt 2 + 1))]
             [Num 0; Num 1; Num 0; Num 0; Num 0; Num 0]
             [Num 1; Num 0]).
  2:{ rewrite action_time_logs_dropna. apply example_times. }
  2,3: vm_compute; float_eq.
  rewrite (process_group_eval "b" _
             [Num (ln 4); Num (ln 2); Num (ln (sqrt 8 + 1))]
             [Num 0; Num 0; Num 0; Num 1; Num 0; Num 0]
             [Num 0; Num 1]).
  - reflexivity.
  - change (ev_action_time <$> _) with (Num <$> [-1; 3]%R).
    rewrite (action_time_logs_values (-1) [3%R] 3 1 8).
    + float_eq.
    + split; [set_solver|].
      intros x [->|Hx]%elem_of_cons; [lra|].
      apply list_elem_of_singleton in Hx as ->. lra.
    + unfold stats.mean, Rsum. simpl. lra.
    + lra.
    + simpl. lia.
    + unfold stats.sample_variance, stats.mean, Rsum. simpl. field.
  - vm_compute. float_eq.
  - vm_compute. float_eq.
Qed.

(** C7, amended. Missing [action_time] values are skipped: the timing
    outputs of a group are those of its non-missing values, and are all
    NaN when there is none.  A group raises exactly when the mean of its
    non-missing values is at most -1, with the ValueError of [math.log],
    and that error aborts [prepare_data]. *)
Theorem action_time_validation :
  (∀ times,
     action_time_logs times = action_time_logs (Num <$> pd.dropna times) ∧
     (pd.dropna times = [] → action_time_logs times = Ok [NaN; NaN; NaN]) ∧
     (∀ e, action_time_logs times = Err e ↔
           e = ValueError ∧ pd.dropna times ≠ [] ∧
           (stats.mean (pd.dropna times) + 1 <= 0)%R)) ∧
  (∀ df labels k,
     k ∈ ev_id <$> df →
     raises (action_time_logs
               (ev_action_time <$> filter (λ e, ev_id e = k) df)) →
     raises (prepare_data df labels)).
Proof.
  split.
  - intros times. split_and!.
    + apply action_time_logs_dropna.
    + apply action_time_logs_no_valid.
    + intros e. rewrite (action_time_logs_dropna times).
      destruct (pd.dropna times) as [|x l].
      { rewrite (action_time_logs_no_valid (Num <$> [])) by done.
        split; [done | by intros (_ & ? & _)]. }
      destruct (Rlt_dec 0 (stats.mean (x :: l) + 1)) as [Hpos|Hneg].
      * rewrite (action_time_logs_Ok x l _ (foldl_Rmax_is_max x l)) by done.
        split; [done|]. intros (_ & _ & ?). lra.
      * rewrite action_time_logs_Err by lra.
        split; [intros [= <-] | by intros [-> _]].
        split_and!; [done..|lra].
  - intros df labels k Hk Hr.
    apply prepare_data_raises, (feature_rows_raises _ k Hk).
    by apply process_group_raises_times.
Qed.

(** C7, amended, at a group whose valid values -3 and 1 have mean -1. *)
Lemma action_time_validation_witness :
  action_time_logs [NaN; Num (-3); Num 1] = Err ValueError.
Proof.
  apply (proj2 (proj2 (proj1 action_time_validation _))).
  split_and!; [done..|].
  change (pd.dropna _) with [-3; 1]%R.
  unfold stats.mean, Rsum. simpl. lra.
Defined.

(** C8. [process_text_change] never fails: the value ['q'] goes to the
    bucket [alphanum] and every other value, a missing one included, to
    [other]; the result is the share of ['q'] values followed by the share
    of the other values; ['q','q','x'] gives 2/3 and 1/3. *)
Theorem process_text_change_total :
  (∀ x, text_change_bucket x
        = if decide (x = Some "q") then "alphanum" else "other") ∧
  (∀ data,
     process_text_change data
     = Ok [Num (INR (length (filter (λ x, x = Some "q") data))
                / INR (length data));
           Num (INR (length (filter (λ x, x ≠ Some "q") data))
                / INR (length data))]) ∧
  process_text_change [Some "q"; Some "q"; Some "x"]
  = Ok [Num (2/3); Num (1/3)].
Proof.
  split_and!; [done | | apply example_text_change].
  intros data. rewrite process_text_change_Ok.
  unfold freq, TEXT_CHANGE_NAMES. csimpl.
  by rewrite count_text_change_alphanum, count_text_change_other,
    length_fmap.
Qed.

(** C9 does not hold as specified: joined with [duplicate_labels], the
    single feature row of [single_event_df] comes out twice. *)
Lemma duplicate_labels_duplicate_rows :
  ∃ res out,
    prepare_data single_event_df None = Ok res ∧
    prepare_data single_event_df (Some duplicate_labels) = Ok out ∧
    length (pd.rows res) = 1 ∧
    length (pd.rows out) = 2 ∧
    length (filter (row_has_id "a") (pd.rows out)) = 2.
Proof.
  eexists _, _. split_and!.
  - apply single_event_features.
  - rewrite prepare_data_labels, single_event_features. reflexivity.
  - reflexivity.
  - reflexivity.
  - reflexivity.
Qed.

(** C9, amended. With a label table whose column names do not clash
    with the feature columns (as when no label column is named as a
    feature column), [prepare_data] returns the left join of the feature
    table with the labels on [id]: the output rows are the feature rows
    in order, each replaced by its joined rows, that is the feature row
    once per label row of its id, in label order, followed by the values
    of that label row, or once followed by missing values when no label
    row has its id.  So every feature row is kept, an id of the input has
    as many output rows as label rows, and one when it has none, and
    exactly one per feature row when the label ids are distinct.  When
    the column names clash the merge raises MergeError.  Without labels
    the feature table is returned as it is. *)
Theorem prepare_data_left_join
    (df : list event) (labels : pd.LabelFrame) (res : pd.DataFrame) :
  prepare_data df None = Ok res →
  (columns_clash (Some labels) →
     prepare_data df (Some labels) = Err MergeError) ∧
  (Forall (.∉ FEATURE_COLUMNS) (pd.label_columns labels) →
     ¬ columns_clash (Some labels)) ∧
  (¬ columns_clash (Some labels) →
   ∃ out ids,
     prepare_data df (Some labels) = Ok out ∧
     pd.merge_left res labels "id" = Ok out ∧
     Forall2 (λ r k, row_has_id k r) (pd.rows res) ids ∧
     pd.rows out
     = mjoin (zip_with (λ r k, joined_rows labels k r) (pd.rows res) ids) ∧
     (∀ r, r ∈ pd.rows res → ∃ o vals, o ∈ pd.rows out ∧ o = r ++ vals) ∧
     (∀ o, o ∈ pd.rows out →
        ∃ r k, r ∈ pd.rows res ∧ row_has_id k r ∧
          ((labels_of labels k = [] ∧ o = r ++ no_labels labels) ∨
           (∃ vals, vals ∈ labels_of labels k ∧ o = r ++ vals))) ∧
     (∀ k, k ∈ ev_id <$> df →
        ∃ r, filter (row_has_id k) (pd.rows res) = [r] ∧
             filter (row_has_id k) (pd.rows out) = joined_rows labels k r ∧
             length (filter (row_has_id k) (pd.rows out))
             = Nat.max 1 (length (labels_of labels k))) ∧
     (NoDup (pd.label_rows labels).*1 →
        Forall2 (λ r o, ∃ vals, o = r ++ vals) (pd.rows res) (pd.rows out))).
Proof.
  intros (data & Hdata & ->)%prepare_data_None_inv.
  pose proof (feature_rows_has_id _ _ Hdata) as Hids.
  pose proof (groupby_keys_NoDup ev_id df) as Hnd.
  pose proof (prepare_data_Some df labels data Hdata) as Hsome.
  split_and!.
  - unfold columns_clash. intros Hclash. by rewrite Hsome, Hclash.
  - intros Hdisj. unfold columns_clash. by rewrite merge_columns_disjoint.
  - intros [cols Hcols]%columns_clash_cases.
    rewrite Hcols in Hsome. cbn [mbind result_bind] in Hsome.
    eexists _, (pd.groupby ev_id df).*1. split_and!.
    + exact Hsome.
    + by rewrite merge_left_features, Hcols.
    + done.
    + cbn [pd.rows]. by apply join_joined_rows.
    + intros r Hr. by apply join_preserves.
    + intros o Ho. by eapply join_sound.
    + intros k Hk%elem_of_groupby_keys. cbn [pd.rows].
      destruct (join_filter labels _ _ k Hids Hnd Hk) as (r & Hf & Hj).
      exists r. split_and!; [done..|].
      rewrite (join_count labels _ _ k Hids Hnd). by rewrite decide_True.
    + intros Hlab. cbn [pd.rows]. eapply join_unique; [done|].
      intros k _. by apply labels_of_unique.
Qed.

(** C9, amended, at [single_event_df], joined with [duplicate_labels] and
    with [clashing_labels]. *)
Lemma prepare_data_left_join_witness :
  (∃ out r,
     prepare_data single_event_df (Some duplicate_labels) = Ok out ∧
     filter (row_has_id "a") (pd.rows out)
     = [r ++ [pd.CNum (Num 1)]; r ++ [pd.CNum (Num 2)]]) ∧
  prepare_data single_event_df (Some clashing_labels) = Err MergeError.
Proof.
  split.
  - destruct (prepare_data_left_join single_event_df duplicate_labels _
                single_event_features) as (_ & _ & Hjoin).
    destruct (Hjoin duplicate_labels_no_clash)
      as (out & ids & Hout & _ & _ & _ & _ & _ & Hrows & _).
    destruct (Hrows "a" ltac:(by left)) as (r & _ & Hr & _).
    by exists out, r.
  - apply (prepare_data_left_join single_event_df clashing_labels _
             single_event_features).
    exact clashing_labels_clash.
Defined.

(** C10. For an empty input event table, [prepare_data] returns an empty
    feature table that still carries the fixed columns in order: [id], the
    three timing columns, the six activity columns and the two
    text-change columns. *)
Theorem prepare_data_empty :
  prepare_data [] None
  = Ok (pd.mkDataFrame
          ["id";
           "action_time_max_log"; "action_time_mean_log"; "action_time_std_log";
           "nonproduction"; "input"; "remove/cut"; "paste"; "replace"; "move";
           "alphanum"; "other"]
          []).
Proof. reflexivity. Qed.

(** * Further properties of the code *)

(** ** Outcomes of [process_activity] *)

Lemma assign_freqs_Err (n : nat) idx items res e :
  (∀ k i, idx !! k = Some i → i < n) →
  length res = n →
  assign_freqs idx items res = Err e → e = KeyError.
Proof.
  intros Hidx. revert res.
  induction items as [|[name f] items IH]; intros res Hlen; simpl; [done|].
  unfold getitem. destruct (idx !! name) as [i|] eqn:Hi; simpl.
  - unfold setitem. rewrite decide_True by (rewrite Hlen; eauto). simpl.
    apply IH. by rewrite length_insert.
  - by intros [= <-].
Qed.

Lemma histogram_Err names xs e :
  NoDup names → histogram names xs = Err e → e = KeyError.
Proof.
  intros Hnd.
  apply (assign_freqs_Err (length names)); [|apply length_replicate].
  intros k i Hi. apply (dict_lookup_Some names Hnd) in Hi.
  by eapply lookup_lt_Some.
Qed.

Lemma mapM_activity_apply_missing data :
  None ∈ data → mapM activity_apply data = Err TypeError.
Proof.
  induction data as [|[s|] data IH]; simpl.
  - by intros ?%elem_of_nil.
  - intros [?|Hin]%elem_of_cons; [done|]. by rewrite IH.
  - done.
Qed.

Lemma present_Some raw : present (Some <$> raw) = raw.
Proof. induction raw as [|x raw IH]; csimpl; [done | by rewrite IH]. Qed.

Lemma present_all data : None ∉ data → data = Some <$> present data.
Proof.
  intros Hnone. destruct (Some_fmap_or_None data) as [?|[raw ->]]; [done|].
  by rewrite present_Some.
Qed.

(** The three outcomes of [process_activity]. *)
Lemma process_activity_cases data :
  process_activity data
  = if decide (None ∈ data) then Err TypeError
    else if decide (Forall recognized (present data))
         then Ok (freq (activity_bucket <$> present data) <$> ACTIVITY_NAMES)
         else Err KeyError.
Proof.
  destruct (decide (None ∈ data)) as [Hnone|Hnone].
  { unfold process_activity. by rewrite mapM_activity_apply_missing. }
  rewrite (present_all data Hnone) at 1.
  destruct (decide (Forall recognized (present data))) as [Hrec|Hnot].
  { by apply process_activity_recognized. }
  apply not_Forall_Exists in Hnot; [|apply _].
  apply Exists_exists in Hnot as (x & Hx & Hnot).
  destruct (process_activity_unrecognized _ x Hx Hnot) as [e He].
  rewrite He. f_equal. revert He. unfold process_activity.
  rewrite mapM_activity_apply. cbn [mbind result_bind].
  apply (histogram_Err ACTIVITY_NAMES), ACTIVITY_NAMES_NoDup.
Qed.

Lemma process_activity_Err data e :
  process_activity data = Err e → e = TypeError ∨ e = KeyError.
Proof.
  rewrite process_activity_cases.
  destruct (decide (None ∈ data)); [intros [= <-]; by left|].
  destruct (decide (Forall recognized (present data)));
    [done | intros [= <-]; by right].
Qed.

Lemma elem_of_present data s : s ∈ present data ↔ Some s ∈ data.
Proof.
  unfold present. rewrite list_elem_of_omap. split.
  - by intros ([s'|] & Hin & [= <-]).
  - intros Hin. by exists (Some s).
Qed.

Lemma freq_Permutation xs xs' k : xs ≡ₚ xs' → freq xs k = freq xs' k.
Proof. intros Hp. unfold freq, pd.count. by rewrite Hp. Qed.

Lemma count_elem_of k xs : k ∈ xs → 0 < pd.count k xs.
Proof.
  induction xs as [|x xs IH]; [by intros ?%elem_of_nil|].
  rewrite count_cons. intros [->|Hin]%elem_of_cons.
  - rewrite decide_True by done. lia.
  - specialize (IH Hin). lia.
Qed.

Lemma freq_zero xs k : freq xs k = Num 0 ↔ k ∉ xs.
Proof.
  split; [|apply freq_not_elem_of].
  intros Hz Hin. apply count_elem_of in Hin.
  pose proof (count_le_length k xs).
  assert (0 < INR (pd.count k xs))%R by (apply lt_0_INR; lia).
  assert (0 < INR (length xs))%R by (apply lt_0_INR; lia).
  assert (0 < / INR (length xs))%R by by apply Rinv_0_lt_compat.
  assert (0 < INR (pd.count k xs) / INR (length xs))%R
    by by apply Rmult_lt_0_compat.
  unfold freq in Hz. injection Hz as Hz. lra.
Qed.

(** ** The bucketing of activities *)

Lemma lower_ascii_idemp c : lower_ascii (lower_ascii c) = lower_ascii c.
Proof. by destruct c as [[] [] [] [] [] [] [] []]. Qed.

Lemma lower_ascii_not_M c : lower_ascii c ≠ "M"%char.
Proof. by destruct c as [[] [] [] [] [] [] [] []]. Qed.

Lemma lower_idemp s : lower (lower s) = lower s.
Proof.
  induction s as [|c s IH]; simpl; [done|].
  by rewrite lower_ascii_idemp, IH.
Qed.

Lemma prefix_Move_cons c s :
  c ≠ "M"%char → Strings.String.prefix "Move" (String c s) = false.
Proof.
  intros Hc.
  change (Strings.String.prefix "Move" (String c s))
    with (match ascii_dec "M" c with
          | left _ => Strings.String.prefix "ove" s
          | right _ => false
          end).
  destruct (ascii_dec "M" c); congruence.
Qed.

Lemma contains_Move_lower s : contains "Move" (lower s) = false.
Proof.
  induction s as [|c s IH]; [done|]. cbn [lower contains].
  by rewrite prefix_Move_cons, IH by apply lower_ascii_not_M.
Qed.

Lemma process_activity_Ok_iff data :
  (∃ res, process_activity data = Ok res) ↔
  Forall (λ a, ∃ s, a = Some s ∧ recognized s) data.
Proof.
  split.
  - intros [res (raw & -> & Hrec & _)%process_activity_Ok_inv].
    apply Forall_forall. intros a (s & -> & Hs)%list_elem_of_fmap.
    exists s. split; [done|]. by eapply Forall_forall in Hrec.
  - intros Hall. destruct (Some_fmap_or_None data) as [Hnone|[raw ->]].
    + eapply Forall_forall in Hall as (s & Hs & _); [|exact Hnone].
      discriminate Hs.
    + eexists. apply process_activity_recognized.
      apply Forall_forall. intros s Hs.
      apply (list_elem_of_fmap_2 Some) in Hs.
      eapply Forall_forall in Hall as (s' & Heq & ?); [|exact Hs].
      by injection Heq as ->.
Qed.

(** X1. The index dictionaries invert the vocabulary lists: a name is
    mapped to [i] exactly when it stands at position [i] of its list. *)
Theorem index_dicts_invert_names (name : string) (i : nat) :
  (ACTIVITY2IDX !! name = Some i ↔ ACTIVITY_NAMES !! i = Some name) ∧
  (TEXT_CHANGE2IDX !! name = Some i ↔ TEXT_CHANGE_NAMES !! i = Some name).
Proof.
  split.
  - apply (dict_lookup_Some ACTIVITY_NAMES ACTIVITY_NAMES_NoDup).
  - apply (dict_lookup_Some TEXT_CHANGE_NAMES TEXT_CHANGE_NAMES_NoDup).
Qed.

(** X2. [process_activity] raises TypeError exactly when a value is
    missing, KeyError exactly when no value is missing and some value is
    not recognized, and nothing else; it returns a result exactly when
    every value is present and recognized. *)
Theorem process_activity_errors (data : list (option string)) :
  (process_activity data = Err TypeError ↔ None ∈ data) ∧
  (process_activity data = Err KeyError ↔
     ((None ∉ data) ∧ ∃ s, Some s ∈ data ∧ ¬ recognized s)) ∧
  (∀ e, process_activity data = Err e → e = TypeError ∨ e = KeyError) ∧
  ((∃ res, process_activity data = Ok res) ↔
     Forall (λ a, ∃ s, a = Some s ∧ recognized s) data).
Proof.
  rewrite process_activity_cases. split_and!.
  - destruct (decide (None ∈ data)); [done|].
    by destruct (decide (Forall recognized (present data))).
  - destruct (decide (None ∈ data)) as [?|Hnone].
    { split; [done | by intros [? _]]. }
    destruct (decide (Forall recognized (present data))) as [Hrec|Hnot].
    + split; [done|]. intros (_ & s & Hs & Hnot).
      apply elem_of_present in Hs. by eapply Forall_forall in Hrec.
    + split; [|done]. intros _. split; [done|].
      apply not_Forall_Exists in Hnot; [|apply _].
      apply Exists_exists in Hnot as (s & Hs & Hnot).
      exists s. by rewrite <-elem_of_present.
  - intros e. destruct (decide (None ∈ data)); [intros [= <-]; by left|].
    destruct (decide (Forall recognized (present data)));
      [done | intros [= <-]; by right].
  - rewrite <-process_activity_cases. apply process_activity_Ok_iff.
Qed.

(** X3. [process_activity] does not depend on the order of the values:
    two Series with the same values in another order give the same
    result, or the same error. *)
Theorem process_activity_Permutation (data data' : list (option string)) :
  data ≡ₚ data' → process_activity data = process_activity data'.
Proof.
  intros Hp. rewrite !process_activity_cases.
  assert (Hpresent : present data ≡ₚ present data').
  { unfold present. by rewrite Hp. }
  destruct (decide (None ∈ data)) as [Hnone|Hnone].
  { rewrite decide_True; [done|]. by rewrite <-Hp. }
  rewrite (decide_False (P := None ∈ data')) by by rewrite <-Hp.
  destruct (decide (Forall recognized (present data))) as [Hrec|Hnot].
  - rewrite decide_True by by rewrite <-Hpresent.
    f_equal. apply list_fmap_ext. intros _ k _.
    apply freq_Permutation. by rewrite Hpresent.
  - rewrite decide_False; [done|]. by rewrite <-Hpresent.
Qed.

(** X3 at the three activities of the worked example, reversed. *)
Lemma process_activity_Permutation_witness :
  process_activity [Some "Input"; Some "Remove/Cut"; Some "Move To"]
  = process_activity [Some "Move To"; Some "Remove/Cut"; Some "Input"].
Proof.
  apply process_activity_Permutation.
  change [Some "Move To"; Some "Remove/Cut"; Some "Input"]
    with (reverse [Some "Input"; Some "Remove/Cut"; Some "Move To"]).
  symmetry. apply reverse_Permutation.
Defined.

(** X4. [process_text_change] does not depend on the order of the
    values either. *)
Theorem process_text_change_Permutation (data data' : list (option string)) :
  data ≡ₚ data' → process_text_change data = process_text_change data'.
Proof.
  intros Hp. rewrite !process_text_change_Ok. f_equal.
  apply list_fmap_ext. intros _ k _. apply freq_Permutation. by rewrite Hp.
Qed.

(** X4 at ['q', 'q', 'x'], reversed. *)
Lemma process_text_change_Permutation_witness :
  process_text_change [Some "q"; Some "q"; Some "x"]
  = process_text_change [Some "x"; Some "q"; Some "q"].
Proof.
  apply process_text_change_Permutation.
  change [Some "x"; Some "q"; Some "q"]
    with (reverse [Some "q"; Some "q"; Some "x"]).
  symmetry. apply reverse_Permutation.
Defined.

(** X5. In a result of [process_activity] the entry of a vocabulary name
    is 0 exactly when no value of the Series falls in the bucket of that
    name. *)
Theorem process_activity_zero_entries
    (data : list (option string)) (res : list pyfloat)
    (i : nat) (name : string) :
  process_activity data = Ok res →
  ACTIVITY_NAMES !! i = Some name →
  res !! i = Some (Num 0) ↔ ∀ s, Some s ∈ data → activity_bucket s ≠ name.
Proof.
  intros (raw & -> & _ & ->)%process_activity_Ok_inv Hname.
  rewrite list_lookup_fmap, Hname. simpl.
  split.
  - intros Hz. apply (inj Some) in Hz. apply freq_zero in Hz.
    intros s Hs <-. apply Hz.
    apply list_elem_of_fmap in Hs as (s' & [= ->] & Hs).
    by apply list_elem_of_fmap_2.
  - intros Hno. f_equal. apply freq_zero.
    intros (s & -> & Hs)%list_elem_of_fmap. apply (Hno s); [|done].
    by apply list_elem_of_fmap_2.
Qed.

(** X5 at the worked example: no value is a paste (position 3). *)
Lemma process_activity_zero_entries_witness :
  [Num 0; Num (1/3); Num (1/3); Num 0; Num 0; Num (1/3)]%R !! 3
  = Some (Num 0) ↔
  ∀ s, Some s ∈ [Some "Input"; Some "Remove/Cut"; Some "Move To"] →
       activity_bucket s ≠ "paste".
Proof.
  exact (process_activity_zero_entries _ _ 3 "paste" example_activity eq_refl).
Defined.

(** X6. Bucketing is idempotent: the bucket of a bucket name is that
    name, so a value is recognized exactly when its bucket is. *)
Theorem activity_bucket_idempotent (x : string) :
  activity_bucket (activity_bucket x) = activity_bucket x ∧
  (recognized (activity_bucket x) ↔ recognized x).
Proof.
  assert (Hidem : activity_bucket (activity_bucket x) = activity_bucket x).
  { unfold activity_bucket at 2 3.
    destruct (contains "Move" x); [done|].
    unfold activity_bucket. by rewrite contains_Move_lower, lower_idemp. }
  split; [done|]. unfold recognized. by rewrite Hidem.
Qed.

(** ** Outcomes of the loop over the groups *)

Lemma mapM_fmap {A B C} (f : B → result C) (g : A → B) l :
  mapM f (g <$> l) = mapM (f ∘ g) l.
Proof. induction l as [|x l IH]; csimpl; [done | by rewrite IH]. Qed.

Lemma mapM_Err {A B} (f : A → result B) l e :
  mapM f l = Err e ↔
  ∃ l1 x l2, l = l1 ++ x :: l2 ∧
             Forall (λ y, ∃ b, f y = Ok b) l1 ∧ f x = Err e.
Proof.
  induction l as [|y l IH]; simpl.
  { split; [done|]. intros (l1 & x & l2 & Heq & _).
    destruct l1; discriminate Heq. }
  split.
  - intros Herr. destruct (f y) as [b|e'] eqn:Hy; simpl in Herr.
    + destruct (mapM f l) as [ys|e'']; simpl in Herr; [done|].
      injection Herr as ->.
      destruct (proj1 IH eq_refl) as (l1 & x & l2 & -> & Hok & Hx).
      exists (y :: l1), x, l2. split_and!; [done| |done].
      constructor; [by exists b | done].
    + injection Herr as ->. exists [], y, l. by split_and!.
  - intros (l1 & x & l2 & Heq & Hok & Hx).
    destruct l1 as [|z l1]; simplify_eq/=.
    + by rewrite Hx.
    + apply Forall_cons in Hok as [[b Hb] Hok]. rewrite Hb. simpl.
      rewrite (proj2 IH); [done|]. by exists l1, x, l2.
Qed.

(** The ids in the order of the loop. *)
Lemma feature_rows_keys df :
  feature_rows df
  = mapM (λ k, process_group k (events_of df k))
      (merge_sort String.le (remove_dups (ev_id <$> df))).
Proof. unfold feature_rows, pd.groupby. by rewrite mapM_fmap. Qed.

Lemma keys_sorted (ids : list string) :
  StronglySorted String.le (merge_sort String.le ids).
Proof. apply StronglySorted_merge_sort; apply _. Qed.

Lemma elem_of_keys (ids : list string) k :
  k ∈ merge_sort String.le (remove_dups ids) ↔ k ∈ ids.
Proof. by rewrite merge_sort_Permutation, elem_of_remove_dups. Qed.

Lemma keys_NoDup (ids : list string) :
  NoDup (merge_sort String.le (remove_dups ids)).
Proof. rewrite merge_sort_Permutation. apply NoDup_remove_dups. Qed.

Lemma prepare_data_Err df labels e :
  prepare_data df labels = Err e ↔
  feature_rows df = Err e ∨
  (e = MergeError ∧ (∃ data, feature_rows df = Ok data) ∧
   columns_clash labels).
Proof.
  destruct (feature_rows df) as [data|e'] eqn:Hdata.
  - destruct labels as [l|].
    + rewrite (prepare_data_Some _ _ _ Hdata). unfold columns_clash.
      destruct (pd.merge_columns _ _) as [cols|e''] eqn:Hcols;
        cbn [mbind result_bind].
      * split; [done|]. by intros [?|(_ & _ & ?)].
      * apply merge_columns_Err in Hcols as ->. split.
        -- intros [= <-]. right. split_and!; [done | by eexists | done].
        -- by intros [?|(-> & _)].
    + rewrite (prepare_data_feature_rows _ _ Hdata).
      split; [done|]. by intros [?|(_ & _ & [])].
  - unfold prepare_data. fold (feature_rows df). rewrite Hdata.
    cbn [mbind result_bind]. split.
    + intros [= <-]. by left.
    + by intros [[= <-]|(_ & [? ?] & _)].
Qed.

Lemma prepare_data_Ok df labels :
  (∃ out, prepare_data df labels = Ok out) ↔
  (∃ data, feature_rows df = Ok data) ∧ ¬ columns_clash labels.
Proof.
  split.
  - intros [out Hout]. destruct (feature_rows df) as [data|e] eqn:Hdata.
    + split; [by exists data|]. intros Hclash.
      assert (prepare_data df labels = Err MergeError) as Herr.
      { apply prepare_data_Err. right. rewrite Hdata.
        split_and!; [done | by eexists | done]. }
      congruence.
    + assert (prepare_data df labels = Err e) as Herr.
      { apply prepare_data_Err. left. by rewrite Hdata. }
      congruence.
  - intros [[data Hdata] Hno].
    destruct (prepare_data df labels) as [out|e] eqn:Hp; [by exists out|].
    apply prepare_data_Err in Hp as [Hp|(_ & _ & ?)]; [congruence|done].
Qed.

Lemma action_time_logs_Ok_iff times :
  (∃ logs, action_time_logs times = Ok logs) ↔
  pd.dropna times = [] ∨ (0 < stats.mean (pd.dropna times) + 1)%R.
Proof.
  rewrite (action_time_logs_dropna times).
  destruct (pd.dropna times) as [|x l].
  { split; [by left|]. intros _. eexists.
    by apply (action_time_logs_no_valid (Num <$> [])). }
  destruct (Rlt_dec 0 (stats.mean (x :: l) + 1)) as [Hpos|Hneg].
  - split; [by right|]. intros _. eexists.
    by apply (action_time_logs_Ok x l _ (foldl_Rmax_is_max x l)).
  - rewrite action_time_logs_Err by lra. split; [by intros [? ?]|].
    intros [?|?]; [done | lra].
Qed.

Lemma action_time_logs_ValueError times e :
  action_time_logs times = Err e → e = ValueError.
Proof.
  rewrite (action_time_logs_dropna times).
  destruct (pd.dropna times) as [|x l].
  { by rewrite (action_time_logs_no_valid (Num <$> [])). }
  destruct (Rlt_dec 0 (stats.mean (x :: l) + 1)) as [Hpos|Hneg].
  - by rewrite (action_time_logs_Ok x l _ (foldl_Rmax_is_max x l)).
  - rewrite action_time_logs_Err by lra. by intros [= <-].
Qed.

Lemma process_group_Ok_iff log_id g :
  (∃ row, process_group log_id g = Ok row) ↔ group_accepted g.
Proof.
  unfold group_accepted.
  rewrite <-action_time_logs_Ok_iff, <-process_activity_Ok_iff. split.
  - intros [row (logs & act & tc & ? & ? & _)%process_group_Ok_inv].
    split; by eexists.
  - intros [[logs Hlogs] [act Hact]]. eexists.
    eapply process_group_eval; [exact Hlogs | exact Hact |].
    apply process_text_change_Ok.
Qed.

Lemma process_group_Err log_id g e :
  process_group log_id g = Err e →
  e = ValueError ∨ e = TypeError ∨ e = KeyError.
Proof.
  unfold process_group.
  destruct (action_time_logs _) as [logs|e1] eqn:Hlogs;
    cbn [mbind result_bind].
  2:{ intros [= <-]. left. by eapply action_time_logs_ValueError. }
  destruct (process_activity _) as [act|e2] eqn:Hact;
    cbn [mbind result_bind].
  2:{ intros [= <-]. right. by eapply process_activity_Err. }
  by rewrite process_text_change_Ok.
Qed.

Lemma mapM_Ok_Forall {A B} (f : A → result B) l :
  (∃ ys, mapM f l = Ok ys) ↔ Forall (λ x, ∃ y, f x = Ok y) l.
Proof.
  split; [|apply mapM_total].
  intros [ys Hys%mapM_Ok].
  induction Hys as [|x y l ys Hxy _ IH]; constructor; [by exists y | done].
Qed.

Lemma feature_rows_Ok_iff df :
  (∃ data, feature_rows df = Ok data) ↔
  ∀ k, k ∈ ev_id <$> df → ∃ row, process_group k (events_of df k) = Ok row.
Proof.
  rewrite feature_rows_keys, mapM_Ok_Forall, Forall_forall. split.
  - intros Hall k Hk. by apply Hall, elem_of_keys.
  - intros Hall k Hk. apply Hall. by rewrite elem_of_keys in Hk.
Qed.

Lemma filter_all {A} (P : A → Prop) `{∀ x, Decision (P x)} l :
  Forall P l → filter P l = l.
Proof.
  induction 1 as [|x l Hx _ IH]; [done|].
  by rewrite filter_cons_True, IH.
Qed.

Lemma remove_dups_const (k : string) l :
  l ≠ [] → Forall (λ x, x = k) l → remove_dups l = [k].
Proof.
  intros Hne Hall. induction Hall as [|x l -> Hall IH]; [done|].
  destruct l as [|y l]; [done|]. cbn [remove_dups].
  destruct (decide_rel elem_of k (y :: l)) as [_|Hnot].
  - by apply IH.
  - destruct Hnot. apply Forall_cons in Hall as [-> _]. by left.
Qed.

Lemma events_of_ids df k : Forall (λ e, ev_id e = k) (events_of df k).
Proof. apply Forall_forall. by intros e [? _]%list_elem_of_filter. Qed.

Lemma events_of_nonempty df k : k ∈ ev_id <$> df → events_of df k ≠ [].
Proof.
  intros (e & -> & He)%list_elem_of_fmap Hnil.
  assert (e ∈ events_of df (ev_id e)) as Hin by by apply list_elem_of_filter.
  rewrite Hnil in Hin. by apply elem_of_nil in Hin.
Qed.

(** A table with the events of one writer only has one group. *)
Lemma groupby_single df k :
  k ∈ ev_id <$> df →
  pd.groupby ev_id (events_of df k) = [(k, events_of df k)].
Proof.
  intros Hk. unfold pd.groupby.
  rewrite (remove_dups_const k).
  - change (merge_sort String.le [k]) with [k]. csimpl.
    do 2 f_equal. apply filter_all, events_of_ids.
  - intros Hnil%fmap_nil_inv. by apply (events_of_nonempty df k).
  - apply Forall_fmap, events_of_ids.
Qed.

Lemma feature_rows_shape df data :
  feature_rows df = Ok data →
  Forall (λ r, ∃ k nums, r = pd.CStr k :: (pd.CNum <$> nums) ∧
                         length nums = 11) data.
Proof.
  unfold feature_rows. intros Hdata%mapM_Ok.
  induction Hdata as [|[k g] r groups data Hr _ IH]; constructor; [|done].
  apply process_group_Ok_inv in Hr
    as (logs & act & tc & Hlogs & Hact & Htc & ->).
  exists k, (logs ++ act ++ tc). split; [done|]. rewrite !length_app.
  apply length_action_time_logs in Hlogs as ->.
  apply length_process_activity in Hact as ->.
  by apply length_process_text_change in Htc as ->.
Qed.

Lemma merge_row_values labels key r o :
  o ∈ pd.merge_row labels key r →
  ∃ vals, o = r ++ vals ∧
    (vals = no_labels labels ∨
     ∃ lab, lab ∈ pd.label_rows labels ∧ vals = lab.2).
Proof.
  unfold pd.merge_row.
  destruct (filter _ (pd.label_rows labels)) as [|m ms] eqn:Hm.
  - intros ->%list_elem_of_singleton. eexists. split; [done|]. by left.
  - intros (lab & -> & Hlab)%list_elem_of_fmap. eexists. split; [done|].
    right. exists lab. split; [|done].
    rewrite <-Hm in Hlab. by apply list_elem_of_filter in Hlab as [_ ?].
Qed.

Lemma dropna_nonneg times :
  Forall nonneg_or_nan times → Forall (λ x, (0 <= x)%R) (pd.dropna times).
Proof.
  induction 1 as [|[|r] times Hr _ IH]; csimpl; [done..|].
  by constructor.
Qed.

(** ** The table *)

(** X7. In a table returned by [prepare_data] the [id] column lists the
    distinct ids of the input in ascending order, each once. *)
Theorem prepare_data_ids_ascending (df : list event) (res : pd.DataFrame) :
  prepare_data df None = Ok res →
  ∃ ids,
    pd.getcol res "id" = Ok (pd.CStr <$> ids) ∧
    StronglySorted String.le ids ∧
    NoDup ids ∧
    ∀ k, k ∈ ids ↔ k ∈ ev_id <$> df.
Proof.
  intros (data & Hdata & ->)%prepare_data_None_inv.
  exists (pd.groupby ev_id df).*1. split_and!.
  - by apply getcol_id, feature_rows_ids.
  - rewrite groupby_keys. apply keys_sorted.
  - apply groupby_keys_NoDup.
  - apply elem_of_groupby_keys.
Qed.

(** X7 at [two_writers_df], whose events come in the order b, a, b. *)
Lemma prepare_data_ids_ascending_witness :
  ∃ res ids,
    prepare_data two_writers_df None = Ok res ∧
    pd.getcol res "id" = Ok (pd.CStr <$> ids) ∧
    StronglySorted String.le ids ∧
    NoDup ids ∧
    ∀ k, k ∈ ids ↔ k ∈ ev_id <$> two_writers_df.
Proof.
  destruct (feature_rows_wf _ two_writers_wf) as [data Hdata].
  pose proof (prepare_data_feature_rows _ _ Hdata) as Hres.
  destruct (prepare_data_ids_ascending _ _ Hres) as (ids & Hids).
  by exists (pd.mkDataFrame FEATURE_COLUMNS data), ids.
Defined.

(** X8. [prepare_data] fails exactly in two cases.  The loop body fails
    on some group: the error raised is then the one of the smallest id
    whose group fails, a ValueError, a TypeError or a KeyError, with or
    without labels.  Or every group passes and the columns of the label
    table clash with the feature columns: the merge then raises
    MergeError.  Without labels, and with labels that do not clash, the
    first case is the only one. *)
Theorem prepare_data_first_error
    (df : list event) (labels : option pd.LabelFrame) (e : exn) :
  (prepare_data df labels = Err e ↔
   (∃ k, k ∈ ev_id <$> df ∧
         process_group k (events_of df k) = Err e ∧
         ∀ k', k' ∈ ev_id <$> df → String.le k' k → k' ≠ k →
               ∃ row, process_group k' (events_of df k') = Ok row) ∨
   (e = MergeError ∧
    (∀ k, k ∈ ev_id <$> df →
          ∃ row, process_group k (events_of df k) = Ok row) ∧
    columns_clash labels)) ∧
  (prepare_data df labels = Err e →
   e = ValueError ∨ e = TypeError ∨ e = KeyError ∨ e = MergeError) ∧
  (prepare_data df labels = Err e → ¬ columns_clash labels →
   e = ValueError ∨ e = TypeError ∨ e = KeyError) ∧
  (prepare_data df None = Err e ↔
   ∃ k, k ∈ ev_id <$> df ∧
        process_group k (events_of df k) = Err e ∧
        ∀ k', k' ∈ ev_id <$> df → String.le k' k → k' ≠ k →
              ∃ row, process_group k' (events_of df k') = Ok row).
Proof.
  assert (Hloop : feature_rows df = Err e ↔
    ∃ k, k ∈ ev_id <$> df ∧
         process_group k (events_of df k) = Err e ∧
         ∀ k', k' ∈ ev_id <$> df → String.le k' k → k' ≠ k →
               ∃ row, process_group k' (events_of df k') = Ok row).
  { rewrite feature_rows_keys, mapM_Err.
    pose proof (keys_sorted (remove_dups (ev_id <$> df))) as Hsorted.
    pose proof (keys_NoDup (ev_id <$> df)) as Hnd.
    split.
    - intros (l1 & k & l2 & Heq & Hok & Hk). rewrite Heq in Hsorted.
      exists k. split_and!; [|done|].
      { apply elem_of_keys. rewrite Heq. set_solver. }
      intros k' Hk'%elem_of_keys Hle Hne. rewrite Heq in Hk'.
      apply elem_of_app in Hk' as [Hk'|Hk'].
      { by eapply Forall_forall in Hok. }
      apply elem_of_cons in Hk' as [?|Hk']; [done|].
      destruct Hne. apply (anti_symm String.le); [done|].
      apply (StronglySorted_app_1_elem_of _ [k] l2 k k');
        [|by left|done].
      by apply StronglySorted_app_1_r in Hsorted.
    - intros (k & Hk%elem_of_keys & Herr & Hbefore).
      apply list_elem_of_split in Hk as (l1 & l2 & Heq).
      exists l1, k, l2. split_and!; [done| |done].
      rewrite Heq in Hsorted, Hnd. apply Forall_forall. intros k' Hk'.
      apply Hbefore.
      + apply elem_of_keys. rewrite Heq. set_solver.
      + eapply StronglySorted_app_1_elem_of; [done..|by left].
      + intros ->. apply NoDup_app in Hnd as (_ & Hnd & _).
        apply (Hnd k); [done | by left]. }
  assert (Hiff : ∀ labels', prepare_data df labels' = Err e ↔
    (∃ k, k ∈ ev_id <$> df ∧
          process_group k (events_of df k) = Err e ∧
          ∀ k', k' ∈ ev_id <$> df → String.le k' k → k' ≠ k →
                ∃ row, process_group k' (events_of df k') = Ok row) ∨
    (e = MergeError ∧
     (∀ k, k ∈ ev_id <$> df →
           ∃ row, process_group k (events_of df k) = Ok row) ∧
     columns_clash labels')).
  { intros labels'. by rewrite prepare_data_Err, Hloop, feature_rows_Ok_iff. }
  split_and!.
  - apply Hiff.
  - intros [(k & _ & Herr & _)|(-> & _)]%Hiff; [|by do 3 right].
    apply process_group_Err in Herr. tauto.
  - intros [(k & _ & Herr & _)|(_ & _ & Hclash)]%Hiff Hno; [|done].
    by eapply process_group_Err.
  - rewrite (Hiff None). split; [|by left].
    by intros [?|(_ & _ & [])].
Qed.

(** X9. [prepare_data] returns a table exactly when every group is
    accepted (its valid durations, if any, have a mean above -1 and its
    activities are all present and recognized) and the columns of the
    label table, if there is one, do not clash with the feature columns;
    without labels, exactly when every group is accepted. *)
Theorem prepare_data_succeeds_iff
    (df : list event) (labels : option pd.LabelFrame) :
  ((∃ out, prepare_data df labels = Ok out) ↔
   (∀ k, k ∈ ev_id <$> df → group_accepted (events_of df k)) ∧
   ¬ columns_clash labels) ∧
  ((∃ out, prepare_data df None = Ok out) ↔
   ∀ k, k ∈ ev_id <$> df → group_accepted (events_of df k)).
Proof.
  assert (Hloop : (∃ data, feature_rows df = Ok data) ↔
    ∀ k, k ∈ ev_id <$> df → group_accepted (events_of df k)).
  { rewrite feature_rows_Ok_iff. split.
    - intros Hall k Hk. by apply (proj1 (process_group_Ok_iff k _)), Hall.
    - intros Hall k Hk. by apply (proj2 (process_group_Ok_iff k _)), Hall. }
  split.
  - by rewrite prepare_data_Ok, Hloop.
  - rewrite prepare_data_Ok, Hloop. split; [by intros [? _]|].
    intros Hall. split; [done | by intros []].
Qed.

(** X10. The row of a writer depends on the events of that writer only:
    it is the row [prepare_data] returns for those events alone. *)
Theorem prepare_data_group_independent
    (df : list event) (res : pd.DataFrame) (k : string) :
  prepare_data df None = Ok res →
  k ∈ ev_id <$> df →
  ∃ r, r ∈ pd.rows res ∧ row_has_id k r ∧
       prepare_data (events_of df k) None
       = Ok (pd.mkDataFrame FEATURE_COLUMNS [r]).
Proof.
  intros (data & Hdata & ->)%prepare_data_None_inv Hk.
  rewrite feature_rows_keys in Hdata. apply mapM_Ok in Hdata.
  apply elem_of_keys, list_elem_of_lookup in Hk as [i Hi].
  destruct (Forall2_lookup_l _ _ _ _ _ Hdata Hi) as (r & Hr & Hrow).
  exists r. split_and!.
  - by eapply list_elem_of_lookup_2.
  - apply row_has_id_lookup. by apply process_group_row in Hrow as [? _].
  - apply (prepare_data_eval _ [(k, events_of df k)]).
    + apply groupby_single, elem_of_keys. by eapply list_elem_of_lookup_2.
    + cbn [mapM fst snd]. by rewrite Hrow.
Qed.

(** X10 at the writer [b] of [two_writers_df]. *)
Lemma prepare_data_group_independent_witness :
  ∃ res r,
    prepare_data two_writers_df None = Ok res ∧
    r ∈ pd.rows res ∧ row_has_id "b" r ∧
    prepare_data (events_of two_writers_df "b") None
    = Ok (pd.mkDataFrame FEATURE_COLUMNS [r]).
Proof.
  destruct (feature_rows_wf _ two_writers_wf) as [data Hdata].
  pose proof (prepare_data_feature_rows _ _ Hdata) as Hres.
  destruct (prepare_data_group_independent _ _ "b" Hres) as (r & Hr).
  { by left. }
  by exists (pd.mkDataFrame FEATURE_COLUMNS data), r.
Defined.

(** X11. A table returned by [prepare_data] is rectangular: it has the
    twelve feature columns and one column per label column, and every row
    is an id string, eleven floats and one value per label column, given
    that the label table itself is rectangular. *)
Theorem prepare_data_rectangular
    (df : list event) (labels : option pd.LabelFrame) (out : pd.DataFrame) :
  labels_rectangular labels →
  prepare_data df labels = Ok out →
  length (pd.columns out) = 12 + label_width labels ∧
  Forall (λ r, ∃ k nums rest,
            r = pd.CStr k :: (pd.CNum <$> nums) ++ rest ∧
            length nums = 11 ∧ length rest = label_width labels)
    (pd.rows out).
Proof.
  intros Hrect Hout.
  destruct (proj1 (prepare_data_Ok df labels) (ex_intro _ out Hout))
    as [[data Hdata] _].
  pose proof (feature_rows_shape _ _ Hdata) as Hshape.
  destruct labels as [l|].
  - rewrite (prepare_data_Some _ _ _ Hdata) in Hout.
    destruct (pd.merge_columns _ _) as [cols|] eqn:Hcols; [|done].
    cbn [mbind result_bind] in Hout.
    injection Hout as <-. cbn [pd.columns pd.rows label_width]. split.
    + by rewrite (length_merge_columns _ _ _ Hcols).
    + apply Forall_forall. intros o (r & Ho & Hr)%list_elem_of_bind.
      destruct (proj1 (Forall_forall _ _) Hshape r Hr)
        as (k & nums & -> & Hnums).
      apply merge_row_values in Ho as (vals & -> & Hvals).
      exists k, nums, vals. split_and!; [done..|].
      destruct Hvals as [->|(lab & Hlab & ->)].
      * apply length_replicate.
      * by eapply Forall_forall in Hrect.
  - rewrite (prepare_data_feature_rows _ _ Hdata) in Hout.
    injection Hout as <-. split; [done|]. cbn [pd.rows label_width].
    eapply Forall_impl; [done|]. intros r (k & nums & -> & Hnums).
    exists k, nums, []. by rewrite app_nil_r.
Qed.

(** X11 at [single_event_df] joined with [duplicate_labels]. *)
Lemma prepare_data_rectangular_witness :
  ∃ out,
    prepare_data single_event_df (Some duplicate_labels) = Ok out ∧
    length (pd.columns out) = 13 ∧
    Forall (λ r, ∃ k nums rest,
              r = pd.CStr k :: (pd.CNum <$> nums) ++ rest ∧
              length nums = 11 ∧ length rest = 1)
      (pd.rows out).
Proof.
  assert (Hout : ∃ out,
    prepare_data single_event_df (Some duplicate_labels) = Ok out).
  { apply prepare_data_Ok. pose proof single_event_features as Hres.
    apply prepare_data_None_inv in Hres as (data & Hdata & _).
    split; [by exists data | exact duplicate_labels_no_clash]. }
  destruct Hout as [out Hout]. exists out. split; [done|].
  refine (prepare_data_rectangular _ _ _ _ Hout).
  repeat constructor.
Defined.

(** X12. For durations that are missing or not negative the three timing
    outputs are always produced, and each is NaN or not negative. *)
Theorem action_time_logs_nonneg_or_nan (times : list pyfloat) :
  Forall nonneg_or_nan times →
  ∃ logs, action_time_logs times = Ok logs ∧
          length logs = 3 ∧ Forall nonneg_or_nan logs.
Proof.
  intros Hpos%dropna_nonneg. rewrite (action_time_logs_dropna times).
  destruct (pd.dropna times) as [|x l].
  { exists [NaN; NaN; NaN]. split_and!; [|done|by repeat constructor].
    by apply (action_time_logs_no_valid (Num <$> [])). }
  pose proof (mean_nonneg _ Hpos) as Hmean.
  pose proof (foldl_Rmax_is_max x l) as Hmax.
  assert (0 <= foldl Rmax x l)%R as Hm.
  { destruct Hmax as [Hin _]. by eapply Forall_forall in Hpos. }
  eexists. split_and!.
  - apply (action_time_logs_Ok x l _ Hmax). lra.
  - done.
  - apply Forall_cons_2; [|apply Forall_cons_2; [|apply Forall_cons_2;
      [|apply Forall_nil_2]]]; simpl.
    + apply ln_nonneg. lra.
    + apply ln_nonneg. lra.
    + unfold std_log. destruct (decide _); simpl; [done|].
      apply ln_nonneg.
      pose proof (sqrt_pos (stats.sample_variance (x :: l))).
      unfold stats.sample_std. lra.
Qed.

(** X12 at a group with a missing duration. *)
Lemma action_time_logs_nonneg_or_nan_witness :
  ∃ logs, action_time_logs [NaN; Num 1; Num 3] = Ok logs ∧
          length logs = 3 ∧ Forall nonneg_or_nan logs.
Proof.
  apply action_time_logs_nonneg_or_nan.
  apply Forall_cons_2; [|apply Forall_cons_2; [|apply Forall_cons_2;
    [|apply Forall_nil_2]]]; simpl; [done | lra..].
Defined.

(** X13. The join adds no writer: every row of a table returned with
    labels carries the id of an input event, so label rows for ids without
    events are left out. *)
Theorem prepare_data_labels_add_no_id
    (df : list event) (labels : pd.LabelFrame) (out : pd.DataFrame)
    (o : list pd.cell) :
  prepare_data df (Some labels) = Ok out →
  o ∈ pd.rows out →
  ∃ k, k ∈ ev_id <$> df ∧ row_has_id k o.
Proof.
  intros Hout Ho.
  destruct (proj1 (prepare_data_Ok df (Some labels)) (ex_intro _ out Hout))
    as [[data Hdata] _].
  rewrite (prepare_data_Some _ _ _ Hdata) in Hout.
  destruct (pd.merge_columns _ _) as [cols|]; [|done].
  cbn [mbind result_bind] in Hout.
  injection Hout as <-. cbn [pd.rows] in Ho.
  apply list_elem_of_bind in Ho as (r & Ho & Hr).
  pose proof (feature_rows_has_id _ _ Hdata) as Hids.
  apply list_elem_of_lookup in Hr as [i Hi].
  destruct (Forall2_lookup_l _ _ _ _ _ Hids Hi) as (k & Hk & Hrk).
  exists k. split.
  - apply elem_of_groupby_keys. by eapply list_elem_of_lookup_2.
  - by apply (merge_row_has_id labels (r !! 0) k k r o).
Qed.

(** X13 at [single_event_df] joined with [duplicate_labels]. *)
Lemma prepare_data_labels_add_no_id_witness :
  ∃ out o,
    prepare_data single_event_df (Some duplicate_labels) = Ok out ∧
    o ∈ pd.rows out ∧
    ∃ k, k ∈ ev_id <$> single_event_df ∧ row_has_id k o.
Proof.
  assert (Hout : ∃ out,
    prepare_data single_event_df (Some duplicate_labels) = Ok out ∧
    ∃ o, o ∈ pd.rows out).
  { eexists. split.
    - rewrite prepare_data_labels, single_event_features. reflexivity.
    - eexists. apply list_elem_of_here. }
  destruct Hout as (out & Hout & o & Ho). exists out, o.
  split; [done|]. split; [done|].
  exact (prepare_data_labels_add_no_id _ _ _ _ Hout Ho).
Defined.
